(** * RobloxImageTesting: the image upload server

    A shallow embedding of the Express server of this repository
    (the password-gated server with [sanitizeFileName],
    [requirePasswordForRequest], [imageBufferToPixelJSON] and the routes
    [/upload], [/uploadJson], [/getImage/:name]; and the first server of
    [index.js]), followed by the properties of the access guard, the pixel
    decoder, the name sanitizer and the record store routes.

    Conventions of the embedding.
    - A JavaScript string is the list of its UTF-16 code units ([jsstring]).
    - A [Buffer] is a list of bytes.
    - [Date.now()] is a natural number of milliseconds; every reading of the
      clock that a function makes is an explicit argument, in the order the
      code reads it.
    - The [Map] [failedAttempts] and the files below the storage directory
      are finite maps, threaded through the handlers as explicit state.
    - Code of npm packages and of Node itself ([pngjs], [jpeg-js],
      [Buffer.from(_, 'base64')], [Date.prototype.toISOString]) is a
      parameter of the development; [path.basename] and [path.join] follow
      the documented POSIX behaviour of Node's [path] module. *)

From Stdlib Require Import NArith List String Ascii Strings.Byte Bool Lia DecimalString.
From Stdlib Require DecimalN DecimalPos.
From stdpp Require Import base option list gmap.

Local Open Scope N_scope.

(** ** JavaScript strings *)

(** A string is the sequence of its UTF-16 code units. *)
Abbreviation jsstring := (list N).

(** The code units of an ASCII literal of the source. *)
Definition str (s : string) : jsstring :=
  map N_of_ascii (list_ascii_of_string s).
Arguments str s%_string.

(** [a === b] on strings. *)
Definition str_eqb (a b : jsstring) : bool := bool_decide (a = b).

(** Truthiness of a string, and of a possibly [undefined] string. *)
Definition truthy_str (s : jsstring) : bool :=
  match s with [] => false | _ :: _ => true end.

Definition truthy (v : option jsstring) : bool :=
  match v with Some s => truthy_str s | None => false end.

(** [a || b] on possibly [undefined] strings. *)
Definition js_or (a b : option jsstring) : option jsstring :=
  if truthy a then a else b.

(** [`${n}`] for a non-negative integer [n]. *)
Definition num_to_str (n : N) : jsstring :=
  str (NilZero.string_of_uint (N.to_uint n)).

(** ** Requests and responses *)

(** The file that multer hands to the route as [req.file]. *)
Record File := {
  buffer : list Byte.byte;
  originalname : option jsstring
}.

(** The parts of an Express request that the routes read. Absent header,
    body and query fields are [None] ([undefined]). *)
Record Request := {
  req_ip : jsstring;                         (* req.ip || req.connection.remoteAddress *)
  header_x_api_key : option jsstring;        (* req.headers['x-api-key'] *)
  body_password : option jsstring;           (* req.body.password *)
  query_password : option jsstring;          (* req.query.password *)
  header_authorization : option jsstring;    (* req.headers['authorization'] *)
  req_file : option File;                    (* req.file *)
  body_imageBase64 : option jsstring;        (* req.body.imageBase64 *)
  body_image : option jsstring;              (* req.body.image *)
  body_name : option jsstring;               (* req.body.name *)
  params_name : jsstring                     (* req.params.name *)
}.

(** ** The access guard *)

Definition PASSWORD_MAX_FAILURES : N := 5.
Definition PASSWORD_LOCK_DURATION_MS : N := 60 * 60 * 1000.

(** [process.env.SERVER_PASSWORD || 'ImageConnection_FOX'] *)
Definition SERVER_PASSWORD_of_env (env : option jsstring) : jsstring :=
  default [] (js_or env (Some (str "ImageConnection_FOX"))).

(** A value of the map [failedAttempts]: [{count, blockedUntil}], where
    [blockedUntil] is absent until the threshold is reached. *)
Record Entry := {
  count : N;
  blockedUntil : option N
}.

(** What the middleware does with the request: it answers with a status and
    a text, or it calls [next()]. *)
Inductive Outcome :=
| Sent (status : N) (text : jsstring)
| Next.

(** The three results of the specification's [verify]. *)
Definition Blocked : Outcome :=
  Sent 429 (str "Too many failed password attempts. Try later.").
Definition Denied : Outcome :=
  Sent 403 (str "Forbidden: invalid password.").
Definition Allowed : Outcome := Next.

(** [entry && entry.blockedUntil && Date.now() < entry.blockedUntil]:
    a number is truthy when it is not zero. *)
Definition block_active (entry : option Entry) (now : N) : bool :=
  match entry with
  | None => false
  | Some e =>
      match blockedUntil e with
      | None => false
      | Some b => negb (b =? 0) && (now <? b)
      end
  end.

(** [(req.headers['x-api-key'] || req.body.password || req.query.password
      || req.headers['authorization']) || ''] *)
Definition provided (req : Request) : jsstring :=
  default []
    (js_or (js_or (js_or (js_or (header_x_api_key req) (body_password req))
                         (query_password req))
                  (header_authorization req))
           (Some [])).

Section Guard.

(** The constant [SERVER_PASSWORD] of the configuration block. *)
Variable SERVER_PASSWORD : jsstring.

(** [!provided || provided !== SERVER_PASSWORD] *)
Definition mismatch (req : Request) : bool :=
  negb (truthy_str (provided req)) || negb (str_eqb (provided req) SERVER_PASSWORD).

(** The entry written back on a mismatch: [info.count = (info.count || 0) + 1],
    then [info.blockedUntil = Date.now() + PASSWORD_LOCK_DURATION_MS] when the
    new count has reached the threshold. [now_lock] is that reading of the
    clock. *)
Definition record_failure (entry : option Entry) (now_lock : N) : Entry :=
  let info := default {| count := 0; blockedUntil := None |} entry in
  let info := {| count := count info + 1; blockedUntil := blockedUntil info |} in
  if PASSWORD_MAX_FAILURES <=? count info
  then {| count := count info; blockedUntil := Some (now_lock + PASSWORD_LOCK_DURATION_MS) |}
  else info.

(** [requirePasswordForRequest(req, res, next)], on the map [failedAttempts].
    [now] is the clock read by the block check, [now_lock] the clock read
    when a lock is set. *)
Definition requirePasswordForRequest
    (failedAttempts : gmap jsstring Entry) (req : Request) (now now_lock : N)
  : Outcome * gmap jsstring Entry :=
  let ip := req_ip req in
  let entry := failedAttempts !! ip in
  if block_active entry now then
    (Sent 429 (str "Too many failed password attempts. Try later."), failedAttempts)
  else if mismatch req then
    let info := record_failure (failedAttempts !! ip) now_lock in
    (Sent 403 (str "Forbidden: invalid password."), <[ip := info]> failedAttempts)
  else
    (Next, if bool_decide (is_Some (failedAttempts !! ip))
           then delete ip failedAttempts else failedAttempts).

End Guard.

(** A call of the middleware: the request and the two readings of the clock. *)
Record Call := {
  call_req : Request;
  call_now : N;
  call_now_lock : N
}.

(** The middleware over a sequence of calls, oldest first: the outcomes and
    the final map. *)
Fixpoint run_guard (SERVER_PASSWORD : jsstring)
    (failedAttempts : gmap jsstring Entry) (calls : list Call)
  : list Outcome * gmap jsstring Entry :=
  match calls with
  | [] => ([], failedAttempts)
  | c :: rest =>
      let '(out, fa1) :=
        requirePasswordForRequest SERVER_PASSWORD failedAttempts
          (call_req c) (call_now c) (call_now_lock c) in
      let '(outs, fa2) := run_guard SERVER_PASSWORD fa1 rest in
      (out :: outs, fa2)
  end.

(** A request that carries only a client address and an [x-api-key] header. *)
Definition key_request (ip : jsstring) (key : option jsstring) : Request :=
  {| req_ip := ip; header_x_api_key := key;
     body_password := None; query_password := None;
     header_authorization := None; req_file := None;
     body_imageBase64 := None; body_image := None; body_name := None;
     params_name := [] |}.

(** ** Node's [path] module, POSIX flavour *)

Definition is_slash (c : N) : bool := c =? 47.

Fixpoint drop_while (p : N -> bool) (s : jsstring) : jsstring :=
  match s with
  | [] => []
  | c :: t => if p c then drop_while p t else s
  end.

Fixpoint take_while (p : N -> bool) (s : jsstring) : jsstring :=
  match s with
  | [] => []
  | c :: t => if p c then c :: take_while p t else []
  end.

(** [path.basename(p)]: scanning from the end, the trailing slashes are
    skipped and the characters up to the next slash are the result. *)
Definition basename (p : jsstring) : jsstring :=
  rev (take_while (fun c => negb (is_slash c)) (drop_while is_slash (rev p))).

(** The segments of a path between its slashes. *)
Fixpoint split_slash (s : jsstring) : list jsstring :=
  match s with
  | [] => [[]]
  | c :: t =>
      if is_slash c then [] :: split_slash t
      else match split_slash t with
           | seg :: segs => (c :: seg) :: segs
           | [] => [[c]]
           end
  end.

(** The segment walk of [path.normalize]: empty and [.] segments are
    dropped, [..] removes the segment before it, and stays only in a
    relative path that has nothing left to remove. [stack] holds the
    segments kept so far, last first. *)
Fixpoint normalize_segments (allowAboveRoot : bool)
    (stack : list jsstring) (segs : list jsstring) : list jsstring :=
  match segs with
  | [] => rev stack
  | seg :: rest =>
      if str_eqb seg [] || str_eqb seg (str ".") then
        normalize_segments allowAboveRoot stack rest
      else if str_eqb seg (str "..") then
        match stack with
        | top :: stack' =>
            if str_eqb top (str "..")
            then normalize_segments allowAboveRoot
                   (if allowAboveRoot then seg :: stack else stack) rest
            else normalize_segments allowAboveRoot stack' rest
        | [] =>
            normalize_segments allowAboveRoot
              (if allowAboveRoot then [seg] else []) rest
        end
      else normalize_segments allowAboveRoot (seg :: stack) rest
  end.

Fixpoint join_slash (segs : list jsstring) : jsstring :=
  match segs with
  | [] => []
  | [seg] => seg
  | seg :: rest => seg ++ 47 :: join_slash rest
  end.

(** [path.normalize(p)] *)
Definition path_normalize (p : jsstring) : jsstring :=
  match p with
  | [] => str "."
  | c :: _ =>
      let isAbsolute := is_slash c in
      let trailingSeparator := is_slash (List.last p 0) in
      let body := join_slash (normalize_segments (negb isAbsolute) [] (split_slash p)) in
      match body with
      | [] => if isAbsolute then str "/"
              else if trailingSeparator then str "./" else str "."
      | _ :: _ =>
          let body := if trailingSeparator then body ++ str "/" else body in
          if isAbsolute then 47 :: body else body
      end
  end.

(** [path.join(a, b)]: the non-empty arguments are joined by a slash and the
    result is normalized. *)
Definition path_join (a b : jsstring) : jsstring :=
  match a, b with
  | [], [] => str "."
  | _ :: _, [] => path_normalize a
  | [], _ :: _ => path_normalize b
  | _ :: _, _ :: _ => path_normalize (a ++ 47 :: b)
  end.

(** ** The name sanitizer *)

(** The class [\s] of a JavaScript regular expression. *)
Definition is_space (c : N) : bool :=
  ((9 <=? c) && (c <=? 13)) || (c =? 32) || (c =? 160) || (c =? 5760)
  || ((8192 <=? c) && (c <=? 8202)) || (c =? 8232) || (c =? 8233)
  || (c =? 8239) || (c =? 8287) || (c =? 12288) || (c =? 65279).

(** The class [[a-zA-Z0-9_\-\.]]. *)
Definition is_safe (c : N) : bool :=
  ((97 <=? c) && (c <=? 122)) || ((65 <=? c) && (c <=? 90))
  || ((48 <=? c) && (c <=? 57)) || (c =? 95) || (c =? 45) || (c =? 46).

(** [s.replace(/\s+/g, '_')]: [in_run] tells that the character before was
    white space, already replaced. *)
Fixpoint replace_spaces (in_run : bool) (s : jsstring) : jsstring :=
  match s with
  | [] => []
  | c :: t =>
      if is_space c
      then (if in_run then replace_spaces true t else 95 :: replace_spaces true t)
      else c :: replace_spaces false t
  end.

(** [sanitizeFileName(name)] *)
Definition sanitizeFileName (name : jsstring) : jsstring :=
  let base := basename name in
  let base := replace_spaces false base in
  let base := List.filter is_safe base in
  if negb (truthy_str base) then str "file" else base.

(** ** Buffers *)

Abbreviation byte := Byte.byte.

#[global] Instance byte_eq_decision : EqDecision byte := Byte.byte_eq_dec.

(** The digits [0-9a-f] of [toString('hex')]. *)
Definition hex_digit (n : N) : N := if n <? 10 then 48 + n else 87 + n.

Definition hex_of_byte (x : byte) : jsstring :=
  [hex_digit (Byte.to_N x / 16); hex_digit (Byte.to_N x mod 16)].

(** The value of a hex digit, to read [hex_of_byte] back. *)
Definition unhex_digit (c : N) : N := if c <? 58 then c - 48 else c - 87.

(** [buffer.toString('hex', 0, end)]: the bytes before [end], as many as the
    buffer has, two digits each. *)
Definition toString_hex (buffer : list byte) (last : nat) : jsstring :=
  flat_map hex_of_byte (firstn last buffer).

(** [s.startsWith(prefix)] *)
Fixpoint startsWith (s prefix : jsstring) {struct prefix} : bool :=
  match prefix, s with
  | [], _ => true
  | _ :: _, [] => false
  | p :: prefix', c :: s' => (c =? p) && startsWith s' prefix'
  end.

(** The alphabet of [toString('base64')]. *)
Definition base64_char (n : N) : N :=
  if n <? 26 then 65 + n
  else if n <? 52 then 97 + (n - 26)
  else if n <? 62 then 48 + (n - 52)
  else if n =? 62 then 43 else 47.

(** [buffer.toString('base64')], with [=] padding. *)
Fixpoint toString_base64 (buffer : list byte) : jsstring :=
  match buffer with
  | [] => []
  | [x] =>
      let n := Byte.to_N x in
      [base64_char (n / 4); base64_char ((n mod 4) * 16); 61; 61]
  | [x; y] =>
      let n := Byte.to_N x in
      let m := Byte.to_N y in
      [base64_char (n / 4); base64_char ((n mod 4) * 16 + m / 16);
       base64_char ((m mod 16) * 4); 61]
  | x :: y :: z :: rest =>
      let n := Byte.to_N x in
      let m := Byte.to_N y in
      let k := Byte.to_N z in
      base64_char (n / 4) :: base64_char ((n mod 4) * 16 + m / 16)
      :: base64_char ((m mod 16) * 4 + k / 64) :: base64_char (k mod 64)
      :: toString_base64 rest
  end.

(** The signatures that the decoders look for. *)
Definition PNG_MAGIC : list byte :=
  [Byte.x89; Byte.x50; Byte.x4e; Byte.x47; Byte.x0d; Byte.x0a; Byte.x1a; Byte.x0a].
Definition JPEG_MAGIC3 : list byte := [Byte.xff; Byte.xd8; Byte.xff].
Definition JPEG_MAGIC2 : list byte := [Byte.xff; Byte.xd8].

(** ** The pixel decoder *)

(** What [PNG.sync.read] and [jpeg.decode] return: the size of the image and
    its samples. *)
Module Bitmap.
Record t := { width : N; height : N; data : list byte }.
End Bitmap.

(** One element of [pixels]; a component read past the end of the data is
    [undefined]. *)
Record Pixel := { r : option N; g : option N; b : option N; a : option N }.

(** The object that [imageBufferToPixelJSON] returns. *)
Record PixelImage := { width : N; height : N; pixels : list Pixel }.

(** Why [imageBufferToPixelJSON] fails: its own [Error], or what the decoding
    library threw. *)
Inductive DecodeError :=
| UnsupportedFormat
| DecodeFailure (message : jsstring).

(** [err.message] *)
Definition error_message (err : DecodeError) : jsstring :=
  match err with
  | UnsupportedFormat => str "Unsupported file type (not PNG/JPEG)"
  | DecodeFailure message => message
  end.

(** [{ r: data[i], g: data[i+1], b: data[i+2], a: data[i+3] }] *)
Definition pixel_at (data : list byte) (i : nat) : Pixel :=
  {| r := Byte.to_N <$> data !! i;
     g := Byte.to_N <$> data !! (i + 1)%nat;
     b := Byte.to_N <$> data !! (i + 2)%nat;
     a := Byte.to_N <$> data !! (i + 3)%nat |}.

(** [for (let i = ...; i < data.length; i += 4) pixels.push({...})], with a
    bound on the number of rounds. *)
Fixpoint push_pixels (fuel : nat) (data : list byte) (i : nat)
    (pixels : list Pixel) : list Pixel :=
  match fuel with
  | O => pixels
  | S fuel' =>
      if (i <? length data)%nat
      then push_pixels fuel' data (i + 4)%nat (pixels ++ [pixel_at data i])
      else pixels
  end.

(** The loop from [i = 0] and [pixels = []]; the length of the data bounds
    its rounds. *)
Definition pixels_of (data : list byte) : list Pixel :=
  push_pixels (length data) data 0 [].

Section Decoder.

(** [PNG.sync.read] of pngjs and [jpeg.decode(_, { useTArray: true })] of
    jpeg-js: the bitmap, or the message of the error thrown. *)
Variable PNG_sync_read : list byte -> jsstring + Bitmap.t.
Variable jpeg_decode : list byte -> jsstring + Bitmap.t.

(** [imageBufferToPixelJSON(buffer)] *)
Definition imageBufferToPixelJSON (buffer : list byte) : DecodeError + PixelImage :=
  let header8 := toString_hex buffer 8 in
  let isPNG := str_eqb header8 (str "89504e470d0a1a0a") in
  let header4 := toString_hex buffer 4 in
  let isJPEG := startsWith header4 (str "ffd8ff") in
  if negb isPNG && negb isJPEG then inl UnsupportedFormat
  else if isPNG then
    match PNG_sync_read buffer with
    | inl message => inl (DecodeFailure message)
    | inr png =>
        inr {| width := Bitmap.width png; height := Bitmap.height png;
               pixels := pixels_of (Bitmap.data png) |}
    end
  else
    match jpeg_decode buffer with
    | inl message => inl (DecodeFailure message)
    | inr raw =>
        inr {| width := Bitmap.width raw; height := Bitmap.height raw;
               pixels := pixels_of (Bitmap.data raw) |}
    end.

End Decoder.

(** ** Documents and the storage directory *)

(** The JSON values that the server writes and reads back. *)
#[warnings="-register-all"]
Inductive JSON :=
| JBool (v : bool)
| JNum (n : N)
| JStr (s : jsstring)
| JArr (items : list JSON)
| JObj (fields : list (jsstring * JSON)).

(** The fields of an object literal, in order; [JSON.stringify] leaves out a
    field whose value is [undefined]. *)
Definition defined_fields (l : list (jsstring * option JSON)) : list (jsstring * JSON) :=
  omap (fun kv => pair (fst kv) <$> snd kv) l.

(** [doc[key]] *)
Definition json_get (key : jsstring) (doc : JSON) : option JSON :=
  match doc with
  | JObj fields => snd <$> List.find (fun kv => str_eqb (fst kv) key) fields
  | _ => None
  end.

Definition json_of_pixel (p : Pixel) : JSON :=
  JObj (defined_fields [(str "r", JNum <$> r p); (str "g", JNum <$> g p);
                        (str "b", JNum <$> b p); (str "a", JNum <$> a p)]).

(** What lies at a path of the file system: a directory, a file that holds a
    JSON document (the document that [readJson] gives back), or another
    file. *)
Inductive Node :=
| Dir
| JsonFile (doc : JSON)
| OtherFile.

(** The calls of fs-extra that a handler makes, with their path. *)
Inductive FsCall :=
| PathExists (path : jsstring)
| ReadJson (path : jsstring)
| WriteJson (path : jsstring).

(** [fs.pathExists(path)] *)
Definition pathExists (files : gmap jsstring Node) (path : jsstring) : bool :=
  bool_decide (is_Some (files !! path)).

(** [fs.readJson(path)]: the document, or the message of the error. *)
Definition readJson (files : gmap jsstring Node) (path : jsstring) : jsstring + JSON :=
  match files !! path with
  | Some (JsonFile doc) => inr doc
  | Some Dir => inl (str "EISDIR: illegal operation on a directory, read")
  | Some OtherFile => inl (str "Unexpected token in JSON")
  | None => inl (str "ENOENT: no such file or directory, open '" ++ path ++ str "'")
  end.

(** [fs.writeJson(path, doc)] in a directory that exists: the file is created
    or replaced, unless the path is a directory. *)
Definition writeJson (files : gmap jsstring Node) (path : jsstring) (doc : JSON)
  : jsstring + gmap jsstring Node :=
  match files !! path with
  | Some Dir =>
      inl (str "EISDIR: illegal operation on a directory, open '" ++ path ++ str "'")
  | _ => inr (<[path := JsonFile doc]> files)
  end.

(** ** The routes *)

Inductive Body :=
| Text (s : jsstring)
| Json (doc : JSON).

Record Response := { status : N; body : Body }.

(** The state of the server: the map of the access guard and the files. *)
Record State := {
  failedAttempts : gmap jsstring Entry;
  files : gmap jsstring Node
}.

(** What a handler leaves behind: the response, the state and the calls of
    fs-extra it made, in order. *)
Record Reply := {
  response : Response;
  after : State;
  calls : list FsCall
}.

(** The readings of the clock during one request, in the order of the code:
    by the block check, when a lock is set, for the file name, for
    [uploadedAt]. *)
Record Clock := {
  t_check : N;
  t_lock : N;
  t_name : N;
  t_stamp : N
}.

(** [err.message || fallback] *)
Definition message_or (message fallback : jsstring) : jsstring :=
  if truthy_str message then message else fallback.

Section Server.

Variable SERVER_PASSWORD : jsstring.
Variable PNG_sync_read : list byte -> jsstring + Bitmap.t.
Variable jpeg_decode : list byte -> jsstring + Bitmap.t.
(** [Buffer.from(b64, 'base64')] *)
Variable Buffer_from_base64 : jsstring -> list byte.
(** [new Date().toISOString()], from the reading of the clock. *)
Variable Date_toISOString : N -> jsstring.
(** The directory of the script. *)
Variable __dirname : jsstring.

Definition STORAGE_DIR : jsstring := path_join __dirname (str "storage").

(** The handlers run the middleware inside a promise that is resolved by
    [next()]: when the middleware answers by itself, that answer is the
    response and the rest of the handler does not run. *)
Definition guarded (st : State) (req : Request) (clock : Clock)
    (handler : State -> Reply) : Reply :=
  match requirePasswordForRequest SERVER_PASSWORD (failedAttempts st) req
          (t_check clock) (t_lock clock) with
  | (Sent code text, fa) =>
      {| response := {| status := code; body := Text text |};
         after := {| failedAttempts := fa; files := files st |};
         calls := [] |}
  | (Next, fa) => handler {| failedAttempts := fa; files := files st |}
  end.

(** [`${Date.now()}_${safeName}.json`] *)
Definition file_name (clock : Clock) (safeName : jsstring) : jsstring :=
  num_to_str (t_name clock) ++ str "_" ++ safeName ++ str ".json".

(** [app.post('/upload', ...)]: the form route stores the file as it came,
    in base64. *)
Definition post_upload (st : State) (req : Request) (clock : Clock) : Reply :=
  guarded st req clock (fun st =>
    match req_file req with
    | None =>
        {| response := {| status := 400; body := Text (str "No file uploaded.") |};
           after := st; calls := [] |}
    | Some file =>
        let originalName := default [] (js_or (originalname file) (Some (str "upload"))) in
        let safeName := sanitizeFileName originalName in
        let fileName := file_name clock safeName in
        let filePath := path_join STORAGE_DIR fileName in
        let base64Image := toString_base64 (buffer file) in
        let doc :=
          JObj [(str "filename", JStr fileName);
                (str "original", JStr originalName);
                (str "uploadedAt", JStr (Date_toISOString (t_stamp clock)));
                (str "imageBase64", JStr base64Image)] in
        match writeJson (files st) filePath doc with
        | inl message =>
            {| response :=
                 {| status := 500;
                    body := Text (str "Server Error: " ++ message_or message (str "unknown")) |};
               after := st; calls := [WriteJson filePath] |}
        | inr files' =>
            {| response :=
                 {| status := 200;
                    body := Text (str "<h3>Upload successful!</h3><p>File saved as: <code>"
                                  ++ fileName ++ str "</code></p>") |};
               after := {| failedAttempts := failedAttempts st; files := files' |};
               calls := [WriteJson filePath] |}
        end
    end).

Definition json_error (message : jsstring) : Body :=
  Json (JObj [(str "error", JStr message)]).

(** [app.post('/uploadJson', ...)]: the JSON route decodes the image and
    stores its pixels. *)
Definition post_uploadJson (st : State) (req : Request) (clock : Clock) : Reply :=
  guarded st req clock (fun st =>
    if negb (truthy (body_imageBase64 req)) && negb (truthy (body_image req)) then
      {| response := {| status := 400; body := json_error (str "Missing imageBase64 field") |};
         after := st; calls := [] |}
    else
      let b64 := default [] (js_or (body_imageBase64 req) (body_image req)) in
      let buffer := Buffer_from_base64 b64 in
      match imageBufferToPixelJSON PNG_sync_read jpeg_decode buffer with
      | inl err =>
          {| response :=
               {| status := 500;
                  body := json_error (message_or (error_message err) (str "Server error")) |};
             after := st; calls := [] |}
      | inr result =>
          let providedName := default [] (js_or (body_name req) (Some (str "upload"))) in
          let safeName := sanitizeFileName providedName in
          let fileName := file_name clock safeName in
          let filePath := path_join STORAGE_DIR fileName in
          let doc :=
            JObj [(str "filename", JStr fileName);
                  (str "original", JStr providedName);
                  (str "uploadedAt", JStr (Date_toISOString (t_stamp clock)));
                  (str "width", JNum (width result));
                  (str "height", JNum (height result));
                  (str "pixels", JArr (map json_of_pixel (pixels result)))] in
          match writeJson (files st) filePath doc with
          | inl message =>
              {| response :=
                   {| status := 500;
                      body := json_error (message_or message (str "Server error")) |};
                 after := st; calls := [WriteJson filePath] |}
          | inr files' =>
              {| response :=
                   {| status := 200;
                      body := Json (JObj [(str "success", JBool true);
                                          (str "filename", JStr fileName)]) |};
                 after := {| failedAttempts := failedAttempts st; files := files' |};
                 calls := [WriteJson filePath] |}
          end
      end).

(** [app.get('/getImage/:name', ...)] *)
Definition get_getImage (st : State) (req : Request) (clock : Clock) : Reply :=
  guarded st req clock (fun st =>
    let rawName := params_name req in
    let safeName := basename rawName in
    let filePath := path_join STORAGE_DIR safeName in
    if negb (pathExists (files st) filePath) then
      {| response := {| status := 404; body := Text (str "Not found") |};
         after := st; calls := [PathExists filePath] |}
    else
      match readJson (files st) filePath with
      | inl _ =>
          {| response := {| status := 500; body := Text (str "Server error") |};
             after := st; calls := [PathExists filePath; ReadJson filePath] |}
      | inr data =>
          {| response := {| status := 200; body := Json data |};
             after := st; calls := [PathExists filePath; ReadJson filePath] |}
      end).

End Server.

(** ** The first server of index.js *)

Module Index.

(** [app.post('/upload', ...)] of index.js, without password. The file
    requires neither pngjs nor jpeg-js nor fs-extra, so [PNG] and [jpeg] are
    unbound names there: past the check of the signature, the handler throws
    a [ReferenceError] into its own [catch] before it touches a file. *)
Definition post_upload (req : Request) : Response :=
  match req_file req with
  | None => {| status := 400; body := Text (str "No file uploaded.") |}
  | Some file =>
      let header8 := toString_hex (buffer file) 8 in
      let isPNG := str_eqb header8 (str "89504e470d0a1a0a") in
      let isJPEG := str_eqb (toString_hex (buffer file) 2) (str "ffd8") in
      if negb isPNG && negb isJPEG then
        {| status := 400; body := Text (str "Unsupported file type.") |}
      else
        {| status := 500; body := Text (str "Server error.") |}
  end.

End Index.

(** ** A sample installation *)

(** A PNG file of two by two opaque red pixels: signature, [IHDR]
    (2 x 2, eight bits, RGBA), one deflated [IDAT], [IEND]. *)
Definition red2x2_png : list byte :=
  [Byte.x89; Byte.x50; Byte.x4e; Byte.x47; Byte.x0d; Byte.x0a; Byte.x1a; Byte.x0a;
   Byte.x00; Byte.x00; Byte.x00; Byte.x0d; Byte.x49; Byte.x48; Byte.x44; Byte.x52;
   Byte.x00; Byte.x00; Byte.x00; Byte.x02; Byte.x00; Byte.x00; Byte.x00; Byte.x02;
   Byte.x08; Byte.x06; Byte.x00; Byte.x00; Byte.x00; Byte.x72; Byte.xb6; Byte.x0d;
   Byte.x24; Byte.x00; Byte.x00; Byte.x00; Byte.x11; Byte.x49; Byte.x44; Byte.x41;
   Byte.x54; Byte.x78; Byte.x9c; Byte.x63; Byte.xf8; Byte.xcf; Byte.xc0; Byte.xf0;
   Byte.x1f; Byte.x84; Byte.x19; Byte.x60; Byte.x0c; Byte.x00; Byte.x47; Byte.xca;
   Byte.x07; Byte.xf9; Byte.x67; Byte.x59; Byte.x6e; Byte.xb7; Byte.x00; Byte.x00;
   Byte.x00; Byte.x00; Byte.x49; Byte.x45; Byte.x4e; Byte.x44; Byte.xae; Byte.x42;
   Byte.x60; Byte.x82].

(** The samples of four opaque red pixels, and the bitmap of the file
    above. *)
Definition red_data : list byte :=
  concat (repeat [Byte.xff; Byte.x00; Byte.x00; Byte.xff] 4).

Definition red_bitmap : Bitmap.t :=
  {| Bitmap.width := 2; Bitmap.height := 2; Bitmap.data := red_data |}.

Definition red_pixel : Pixel :=
  {| r := Some 255; g := Some 0; b := Some 0; a := Some 255 |}.

(** A PNG reader that knows this one file. *)
Definition sample_PNG_sync_read (buffer : list byte) : jsstring + Bitmap.t :=
  if bool_decide (buffer = red2x2_png) then inr red_bitmap
  else inl (str "Invalid file signature").

(** A JPEG reader that rejects everything. *)
Definition sample_jpeg_decode (buffer : list byte) : jsstring + Bitmap.t :=
  inl (str "SOI not found").

(** A base64 reader: characters outside the alphabet are skipped and [=]
    ends the input. *)
Definition base64_value (c : N) : option N :=
  if (65 <=? c) && (c <=? 90) then Some (c - 65)
  else if (97 <=? c) && (c <=? 122) then Some (c - 71)
  else if (48 <=? c) && (c <=? 57) then Some (c + 4)
  else if c =? 43 then Some 62
  else if c =? 47 then Some 63
  else None.

Fixpoint sextets (s : jsstring) : list N :=
  match s with
  | [] => []
  | c :: t =>
      match base64_value c with
      | Some v => v :: sextets t
      | None => if c =? 61 then [] else sextets t
      end
  end.

Definition byte_of (n : N) : byte := default Byte.x00 (Byte.of_N n).

Fixpoint bytes_of_sextets (l : list N) : list byte :=
  match l with
  | s0 :: s1 :: s2 :: s3 :: rest =>
      byte_of (s0 * 4 + s1 / 16) :: byte_of ((s1 mod 16) * 16 + s2 / 4)
      :: byte_of ((s2 mod 4) * 64 + s3) :: bytes_of_sextets rest
  | [s0; s1; s2] =>
      [byte_of (s0 * 4 + s1 / 16); byte_of ((s1 mod 16) * 16 + s2 / 4)]
  | [s0; s1] => [byte_of (s0 * 4 + s1 / 16)]
  | _ => []
  end.

Definition sample_Buffer_from_base64 (s : jsstring) : list byte :=
  bytes_of_sextets (sextets s).

(** A clock display that shows the milliseconds. *)
Definition sample_toISOString (t : N) : jsstring := num_to_str t ++ str "ms".

(** A request to [/uploadJson] or to [/getImage/:name] with the password in
    the [x-api-key] header. *)
Definition json_request (ip key : jsstring) (image name : option jsstring)
    (param : jsstring) : Request :=
  {| req_ip := ip; header_x_api_key := Some key;
     body_password := None; query_password := None;
     header_authorization := None; req_file := None;
     body_imageBase64 := image; body_image := None; body_name := name;
     params_name := param |}.

(** A request to the form route [/upload], with the password in the form. *)
Definition form_request (ip password : jsstring) (file : option File) : Request :=
  {| req_ip := ip; header_x_api_key := None;
     body_password := Some password; query_password := None;
     header_authorization := None; req_file := file;
     body_imageBase64 := None; body_image := None; body_name := None;
     params_name := [] |}.

(** A server directory [/app] with an empty storage directory. *)
Definition sample_files : gmap jsstring Node :=
  {[ str "/app" := Dir; str "/app/storage" := Dir; str "/app/index.js" := OtherFile ]}.

Definition sample_state : State :=
  {| failedAttempts := ∅; files := sample_files |}.

Definition sample_clock : Clock :=
  {| t_check := 1700000000000; t_lock := 1700000000000;
     t_name := 1700000000001; t_stamp := 1700000000002 |}.

(** A path segment that [path.normalize] keeps as it is: not empty, without
    slash, and neither [.] nor [..]. *)
Definition plain_segment (seg : jsstring) : Prop :=
  seg <> [] /\ seg <> str "." /\ seg <> str ".."
  /\ Forall (fun c => is_slash c = false) seg.

(** The order in which an entry may only move while it is not deleted: the
    count does not go down and a lock, once set, stays set. The absence of an
    entry is below everything. *)
Definition entry_le (before after : option Entry) : Prop :=
  match before, after with
  | None, _ => True
  | Some _, None => False
  | Some e, Some e' =>
      count e <= count e' /\ (is_Some (blockedUntil e) -> is_Some (blockedUntil e'))
  end.

(** No call of client [k] in the sequence went through to [next()]. *)
Fixpoint never_allowed (k : jsstring) (calls : list Call) (outs : list Outcome) : Prop :=
  match calls, outs with
  | c :: calls', out :: outs' =>
      (req_ip (call_req c) = k -> out <> Allowed) /\ never_allowed k calls' outs'
  | _, _ => True
  end.

(** ** Entries that the middleware can produce *)

(** The shape of an entry that the middleware has written: at least one
    failure is counted, and [blockedUntil] is set exactly when the count has
    reached the threshold, to a time not before the lock duration. *)
Definition entry_ok (e : Entry) : Prop :=
  1 <= count e
  /\ match blockedUntil e with
     | None => count e < PASSWORD_MAX_FAILURES
     | Some until => PASSWORD_MAX_FAILURES <= count e
                     /\ PASSWORD_LOCK_DURATION_MS <= until
     end.

(** The calls of one client that all carry a wrong credential. *)
Definition wrong_calls (pw ip : jsstring) (calls : list Call) : Prop :=
  Forall (fun c => req_ip (call_req c) = ip /\ mismatch pw (call_req c) = true) calls.

(** ** A second sample reader *)

(** The first bytes of a JFIF file, and a JPEG reader that takes every
    buffer for one opaque grey pixel. *)
Definition jfif_head : list byte :=
  [Byte.xff; Byte.xd8; Byte.xff; Byte.xe0; Byte.x00; Byte.x10;
   Byte.x4a; Byte.x46; Byte.x49; Byte.x46; Byte.x00].

Definition grey_bitmap : Bitmap.t :=
  {| Bitmap.width := 1; Bitmap.height := 1;
     Bitmap.data := [Byte.x80; Byte.x80; Byte.x80; Byte.xff] |}.

Definition grey_jpeg_decode (buffer : list byte) : jsstring + Bitmap.t :=
  inr grey_bitmap.

(** ** The listing route *)

(** [s.endsWith(suffix)], read from the end. *)
Definition endsWith (s suffix : jsstring) : bool :=
  startsWith (rev s) (rev suffix).

(** Truthiness of a value read from a JSON file. *)
Definition json_truthy (v : JSON) : bool :=
  match v with
  | JBool flag => flag
  | JNum n => negb (n =? 0)
  | JStr s => truthy_str s
  | JArr _ => true
  | JObj _ => true
  end.

(** [meta[key] || null]: the value when it is there and truthy, and
    otherwise [null], which is [None] here. *)
Definition field_or_null (key : jsstring) (meta : JSON) : option JSON :=
  match json_get key meta with
  | Some v => if json_truthy v then Some v else None
  | None => None
  end.

Module Listing.

(** One element of the array that [/list] answers with. *)
Record entry := {
  filename : JSON;
  original : option JSON;
  uploadedAt : option JSON;
  width : option JSON;
  height : option JSON
}.

(** The body of the response: the array, or the text of an error. *)
Inductive body :=
| Entries (results : list entry)
| Plain (text : jsstring).

Record reply := {
  status : N;
  content : body;
  after : State
}.

End Listing.

(** The object pushed for the directory entry [f] with the document
    [meta]. *)
Definition summary (f : jsstring) (meta : JSON) : Listing.entry :=
  {| Listing.filename := default (JStr f) (field_or_null (str "filename") meta);
     Listing.original := field_or_null (str "original") meta;
     Listing.uploadedAt := field_or_null (str "uploadedAt") meta;
     Listing.width := field_or_null (str "width") meta;
     Listing.height := field_or_null (str "height") meta |}.

Section ListRoute.

Variable SERVER_PASSWORD : jsstring.
Variable __dirname : jsstring.
(** [fs.readdir(path)]: the names of the entries of a directory, in the
    order of the file system, or the message of the error. *)
Variable readdir : gmap jsstring Node -> jsstring -> jsstring + list jsstring.

(** The body of the loop over [jsonFiles]: a file that cannot be read as
    JSON is skipped. *)
Definition list_one (files : gmap jsstring Node) (f : jsstring) : option Listing.entry :=
  match readJson files (path_join (STORAGE_DIR __dirname) f) with
  | inl _ => None
  | inr meta => Some (summary f meta)
  end.

(** [app.get('/list', ...)] *)
Definition get_list (st : State) (req : Request) (clock : Clock) : Listing.reply :=
  match requirePasswordForRequest SERVER_PASSWORD (failedAttempts st) req
          (t_check clock) (t_lock clock) with
  | (Sent code text, fa) =>
      {| Listing.status := code; Listing.content := Listing.Plain text;
         Listing.after := {| failedAttempts := fa; files := files st |} |}
  | (Next, fa) =>
      let st := {| failedAttempts := fa; files := files st |} in
      match readdir (files st) (STORAGE_DIR __dirname) with
      | inl _ =>
          {| Listing.status := 500;
             Listing.content := Listing.Plain (str "Server error");
             Listing.after := st |}
      | inr names =>
          let jsonFiles := List.filter (fun f => endsWith f (str ".json")) names in
          let results := omap (list_one (files st)) jsonFiles in
          {| Listing.status := 200; Listing.content := Listing.Entries results;
             Listing.after := st |}
      end
  end.

End ListRoute.

(** What [fs.readdir] promises for a directory: the names it returns are the
    names of the entries directly below the directory. *)
Definition lists_directory (files : gmap jsstring Node) (dir : jsstring)
    (names : list jsstring) : Prop :=
  forall n : jsstring,
    In n names
    <-> n <> [] /\ Forall (fun c => is_slash c = false) n
        /\ is_Some (files !! (dir ++ 47 :: n)).

(** A storage directory with one stored record, one directory and one text
    file, and a [readdir] for it. *)
Definition listed_doc : JSON :=
  JObj [(str "filename", JStr (str "1_a.json")); (str "original", JStr (str "a"));
        (str "uploadedAt", JStr (str "1ms")); (str "imageBase64", JStr (str "AAAA"))].

Definition listed_files : gmap jsstring Node :=
  {[ str "/app" := Dir; str "/app/storage" := Dir;
     str "/app/storage/1_a.json" := JsonFile listed_doc;
     str "/app/storage/old.json" := Dir;
     str "/app/storage/notes.txt" := OtherFile ]}.

Definition listed_readdir (files : gmap jsstring Node) (dir : jsstring)
  : jsstring + list jsstring :=
  inr [str "notes.txt"; str "old.json"; str "1_a.json"].

(** The upload of the red PNG file to the JSON route of the sample
    installation, and a [readdir] that knows the one file it stores. *)
Definition red_upload_request : Request :=
  json_request (str "10.0.0.7") (str "pw") (Some (toString_base64 red2x2_png))
    (Some (str "red.png")) [].

Definition red_upload_reply : Reply :=
  post_uploadJson (str "pw") sample_PNG_sync_read sample_jpeg_decode
    sample_Buffer_from_base64 sample_toISOString (str "/app") sample_state
    red_upload_request sample_clock.

Definition red_readdir (files : gmap jsstring Node) (dir : jsstring)
  : jsstring + list jsstring :=
  inr [str "1700000000001_red.png.json"].

(* ===================================================================== *)
(** * Properties *)
(* ===================================================================== *)

Example guard_first_failure :
  requirePasswordForRequest (str "secret") ∅
    (key_request (str "1.2.3.4") (Some (str "nope"))) 10 11
  = (Denied, {[ str "1.2.3.4" := {| count := 1; blockedUntil := None |} ]}).
Proof. reflexivity. Qed.

(** ** The access guard *)

Lemma SERVER_PASSWORD_of_env_nonempty (env : option jsstring) :
  SERVER_PASSWORD_of_env env <> [].
Proof.
  unfold SERVER_PASSWORD_of_env, js_or.
  destruct env as [[|c s]|]; cbn; discriminate.
Qed.

Lemma block_active_window (e : Entry) (now b : N) :
  blockedUntil e = Some b -> now < b -> block_active (Some e) now = true.
Proof.
  intros Hb Hlt. unfold block_active. rewrite Hb.
  apply andb_true_intro. split.
  - apply negb_true_iff, N.eqb_neq. lia.
  - apply N.ltb_lt. exact Hlt.
Qed.

Lemma block_active_expired (e : Entry) (now b : N) :
  blockedUntil e = Some b -> b <= now -> block_active (Some e) now = false.
Proof.
  intros Hb Hle. unfold block_active. rewrite Hb.
  apply andb_false_iff. right. apply N.ltb_ge. exact Hle.
Qed.

Lemma Denied_not_Blocked : Denied <> Blocked.
Proof. discriminate. Qed.

Lemma mismatch_empty (pw : jsstring) (req : Request) :
  provided req = [] -> mismatch pw req = true.
Proof. intros H. unfold mismatch. rewrite H. reflexivity. Qed.

Lemma mismatch_correct (pw : jsstring) (req : Request) :
  pw <> [] -> provided req = pw -> mismatch pw req = false.
Proof.
  intros Hne H. unfold mismatch, str_eqb. rewrite H.
  rewrite bool_decide_eq_true_2 by reflexivity.
  destruct pw; [congruence | reflexivity].
Qed.

Lemma record_failure_count (entry : option Entry) (now_lock : N) :
  count (record_failure entry now_lock) = default 0 (count <$> entry) + 1.
Proof.
  unfold record_failure. destruct entry as [e|]; cbn;
    match goal with |- context [if ?c then _ else _] => destruct c end;
    reflexivity.
Qed.

Lemma record_failure_locks (entry : option Entry) (now_lock : N) :
  PASSWORD_MAX_FAILURES <= default 0 (count <$> entry) + 1 ->
  blockedUntil (record_failure entry now_lock)
  = Some (now_lock + PASSWORD_LOCK_DURATION_MS).
Proof.
  intros H. unfold record_failure.
  destruct entry as [e|]; cbn in *;
    match goal with |- context [if ?c then _ else _] => destruct c eqn:E end;
    try reflexivity; apply N.leb_gt in E; lia.
Qed.

Lemma record_failure_below (entry : option Entry) (now_lock : N) :
  default 0 (count <$> entry) + 1 < PASSWORD_MAX_FAILURES ->
  blockedUntil (record_failure entry now_lock) = entry ≫= blockedUntil.
Proof.
  intros H. unfold record_failure.
  destruct entry as [e|]; cbn in *;
    match goal with |- context [if ?c then _ else _] => destruct c eqn:E end;
    try reflexivity; apply N.leb_le in E; lia.
Qed.

(** The three branches of the middleware, as equations. *)
Lemma guard_blocked pw fa req now now_lock :
  block_active (fa !! req_ip req) now = true ->
  requirePasswordForRequest pw fa req now now_lock = (Blocked, fa).
Proof. intros H. unfold requirePasswordForRequest. rewrite H. reflexivity. Qed.

Lemma guard_mismatch pw fa req now now_lock :
  block_active (fa !! req_ip req) now = false ->
  mismatch pw req = true ->
  requirePasswordForRequest pw fa req now now_lock
  = (Denied, <[req_ip req := record_failure (fa !! req_ip req) now_lock]> fa).
Proof.
  intros H1 H2. unfold requirePasswordForRequest. rewrite H1, H2. reflexivity.
Qed.

Lemma guard_match pw fa req now now_lock :
  block_active (fa !! req_ip req) now = false ->
  mismatch pw req = false ->
  requirePasswordForRequest pw fa req now now_lock
  = (Allowed, delete (req_ip req) fa).
Proof.
  intros H1 H2. unfold requirePasswordForRequest. rewrite H1, H2.
  case_bool_decide as Hs; [reflexivity|].
  f_equal. symmetry. apply delete_id.
  destruct (fa !! req_ip req) eqn:E; [|reflexivity].
  exfalso. apply Hs. eauto.
Qed.

(** C1. While [blockedUntil] is set and lies in the future, every call of the
    middleware by that client answers [Blocked] and leaves the whole map as
    it was, whatever the configured password and whatever credential the
    request carries (the credential is not looked at); with the right
    credential too the answer is not [Allowed] and the entry stays. *)
Theorem C1_blocked_until_expiry
    (SERVER_PASSWORD : jsstring) (failedAttempts : gmap jsstring Entry)
    (req : Request) (now now_lock until : N) (e : Entry) :
  failedAttempts !! req_ip req = Some e ->
  blockedUntil e = Some until ->
  now < until ->
  requirePasswordForRequest SERVER_PASSWORD failedAttempts req now now_lock
    = (Blocked, failedAttempts)
  /\ (forall (pw' : jsstring) (req' : Request) (t' : N),
        req_ip req' = req_ip req ->
        requirePasswordForRequest pw' failedAttempts req' now t'
        = requirePasswordForRequest SERVER_PASSWORD failedAttempts req now now_lock)
  /\ (provided req = SERVER_PASSWORD ->
        fst (requirePasswordForRequest SERVER_PASSWORD failedAttempts req now now_lock)
          <> Allowed
        /\ snd (requirePasswordForRequest SERVER_PASSWORD failedAttempts req now now_lock)
             !! req_ip req = Some e).
Proof.
  intros He Hb Hlt.
  assert (Hact : forall r, req_ip r = req_ip req ->
                   block_active (failedAttempts !! req_ip r) now = true).
  { intros r Hr. rewrite Hr, He. eapply block_active_window; eauto. }
  assert (Hreq := guard_blocked SERVER_PASSWORD failedAttempts req now now_lock
                    (Hact req eq_refl)).
  split; [exact Hreq|]. split.
  - intros pw' req' t' Hip. rewrite Hreq. apply guard_blocked. auto.
  - intros _. rewrite Hreq. cbn. split; [discriminate | exact He].
Qed.

Lemma C1_blocked_until_expiry_witness :
  let pw := str "pw" in
  let fa : gmap jsstring Entry :=
    {[ str "10.0.0.7" := {| count := 5; blockedUntil := Some 3600100 |} ]} in
  let req := key_request (str "10.0.0.7") (Some (str "pw")) in
  requirePasswordForRequest pw fa req 200 200 = (Blocked, fa).
Proof.
  intros pw fa req.
  refine (proj1 (C1_blocked_until_expiry pw fa req 200 200 3600100
                   {| count := 5; blockedUntil := Some 3600100 |} _ _ _));
    [reflexivity | reflexivity | lia].
Defined.

(** C3, as stated, fails: the fifth mismatch of a client that is not blocked
    reaches the threshold and sets the lock, and the call is answered
    [Denied] (403), not [Blocked] (429). *)
Lemma C3_locking_call_is_denied :
  let pw := str "pw" in
  let ip := str "10.0.0.7" in
  let fa : gmap jsstring Entry := {[ ip := {| count := 4; blockedUntil := None |} ]} in
  let req := key_request ip (Some (str "wrong")) in
  block_active (fa !! req_ip req) 1000 = false
  /\ mismatch pw req = true
  /\ PASSWORD_MAX_FAILURES <= 4 + 1
  /\ requirePasswordForRequest pw fa req 1000 1000
     = (Denied, {[ ip := {| count := 5; blockedUntil := Some 3601000 |} ]})
  /\ fst (requirePasswordForRequest pw fa req 1000 1000) <> Blocked.
Proof.
  cbv zeta. split; [reflexivity|]. split; [reflexivity|].
  split; [vm_compute; discriminate|]. split; [reflexivity|].
  vm_compute. discriminate.
Qed.

(** C3, amended. A mismatch by a client that is not blocked writes back an
    entry whose count is the old count plus one (one, when there was no
    entry). When the new count is at least [PASSWORD_MAX_FAILURES],
    [blockedUntil] becomes the clock plus [PASSWORD_LOCK_DURATION_MS], and
    from then on calls made before that time are answered [Blocked];
    below the threshold [blockedUntil] is left as it was. The mismatching
    call itself is answered [Denied] in both cases, and [Denied] differs
    from [Blocked]. *)
Theorem C3_mismatch_counts_locks_and_denies
    (SERVER_PASSWORD : jsstring) (failedAttempts : gmap jsstring Entry)
    (req : Request) (now now_lock : N) :
  block_active (failedAttempts !! req_ip req) now = false ->
  mismatch SERVER_PASSWORD req = true ->
  let old := default 0 (count <$> failedAttempts !! req_ip req) in
  let res := requirePasswordForRequest SERVER_PASSWORD failedAttempts req now now_lock in
  fst res = Denied
  /\ Denied <> Blocked
  /\ exists e' : Entry,
       snd res !! req_ip req = Some e'
       /\ count e' = old + 1
       /\ (PASSWORD_MAX_FAILURES <= old + 1 ->
             blockedUntil e' = Some (now_lock + PASSWORD_LOCK_DURATION_MS)
             /\ forall (req2 : Request) (t t' : N),
                  req_ip req2 = req_ip req ->
                  t < now_lock + PASSWORD_LOCK_DURATION_MS ->
                  requirePasswordForRequest SERVER_PASSWORD (snd res) req2 t t'
                  = (Blocked, snd res))
       /\ (old + 1 < PASSWORD_MAX_FAILURES ->
             blockedUntil e' = failedAttempts !! req_ip req ≫= blockedUntil).
Proof.
  intros Hna Hmis old res. subst res.
  rewrite (guard_mismatch _ _ _ _ _ Hna Hmis). cbn [fst snd].
  split; [reflexivity|]. split; [exact Denied_not_Blocked|].
  exists (record_failure (failedAttempts !! req_ip req) now_lock).
  split; [apply lookup_insert_eq|].
  split; [apply record_failure_count|]. split.
  - intros Hge. split; [apply record_failure_locks; exact Hge|].
    intros req2 t t' Hip Hlt. apply guard_blocked.
    rewrite Hip, lookup_insert_eq.
    eapply block_active_window; [|exact Hlt].
    apply record_failure_locks. exact Hge.
  - intros Hlt. apply record_failure_below. exact Hlt.
Qed.

Lemma C3_mismatch_counts_locks_and_denies_witness :
  let pw := str "pw" in
  let ip := str "10.0.0.7" in
  let fa : gmap jsstring Entry := {[ ip := {| count := 4; blockedUntil := None |} ]} in
  let req := key_request ip (Some (str "wrong")) in
  fst (requirePasswordForRequest pw fa req 1000 1000) = Denied.
Proof.
  intros pw ip fa req.
  refine (proj1 (C3_mismatch_counts_locks_and_denies pw fa req 1000 1000 _ _));
    reflexivity.
Defined.

(** C6. With the password of the configuration block, a client whose entry
    counts between one and four failures and has no running lock, and who
    sends the right credential, is answered [Allowed]; its entry is deleted
    from the map (so that a later failure counts from one again). *)
Theorem C6_correct_credential_deletes_entry
    (env : option jsstring) (failedAttempts : gmap jsstring Entry)
    (req : Request) (now now_lock : N) (e : Entry) :
  failedAttempts !! req_ip req = Some e ->
  1 <= count e < PASSWORD_MAX_FAILURES ->
  block_active (Some e) now = false ->
  provided req = SERVER_PASSWORD_of_env env ->
  let res := requirePasswordForRequest (SERVER_PASSWORD_of_env env)
               failedAttempts req now now_lock in
  fst res = Allowed
  /\ snd res = delete (req_ip req) failedAttempts
  /\ snd res !! req_ip req = None
  /\ forall t : N, count (record_failure (snd res !! req_ip req) t) = 1.
Proof.
  intros He _ Hna Hp res. subst res.
  rewrite guard_match.
  - cbn [fst snd]. rewrite lookup_delete_eq. repeat split; reflexivity.
  - rewrite He. exact Hna.
  - apply mismatch_correct; [apply SERVER_PASSWORD_of_env_nonempty | exact Hp].
Qed.

Lemma C6_correct_credential_deletes_entry_witness :
  let ip := str "10.0.0.7" in
  let fa : gmap jsstring Entry := {[ ip := {| count := 3; blockedUntil := None |} ]} in
  let req := key_request ip (Some (str "ImageConnection_FOX")) in
  fst (requirePasswordForRequest (SERVER_PASSWORD_of_env None) fa req 1000 1000)
  = Allowed.
Proof.
  intros ip fa req.
  refine (proj1 (C6_correct_credential_deletes_entry None fa req 1000 1000
                   {| count := 3; blockedUntil := None |} _ _ _ _));
    [reflexivity | unfold PASSWORD_MAX_FAILURES; cbn; lia | reflexivity | reflexivity].
Defined.

(** C9. A call by a client that is not blocked whose resolved credential is
    the empty string is a mismatch whatever the expected password is, the
    empty password included: the count goes up by one, the answer is
    [Denied], never [Allowed]. *)
Theorem C9_empty_credential_never_allowed
    (expected : jsstring) (failedAttempts : gmap jsstring Entry)
    (req : Request) (now now_lock : N) :
  block_active (failedAttempts !! req_ip req) now = false ->
  provided req = [] ->
  let res := requirePasswordForRequest expected failedAttempts req now now_lock in
  let res0 := requirePasswordForRequest [] failedAttempts req now now_lock in
  fst res <> Allowed
  /\ (fst res = Denied \/ fst res = Blocked)
  /\ fst res0 <> Allowed
  /\ exists e' : Entry,
       snd res !! req_ip req = Some e'
       /\ count e' = default 0 (count <$> failedAttempts !! req_ip req) + 1.
Proof.
  intros Hna Hp res res0. subst res res0.
  rewrite !(guard_mismatch _ _ _ _ _ Hna (mismatch_empty _ _ Hp)).
  cbn [fst snd]. split; [discriminate|]. split; [left; reflexivity|].
  split; [discriminate|].
  exists (record_failure (failedAttempts !! req_ip req) now_lock).
  split; [apply lookup_insert_eq | apply record_failure_count].
Qed.

Lemma C9_empty_credential_never_allowed_witness :
  let req := key_request (str "10.0.0.7") (Some []) in
  fst (requirePasswordForRequest [] ∅ req 1000 1000) <> Allowed.
Proof.
  intros req.
  refine (proj1 (C9_empty_credential_never_allowed [] ∅ req 1000 1000 _ _));
    reflexivity.
Defined.

Lemma entry_le_refl (o : option Entry) : entry_le o o.
Proof. destruct o as [e|]; cbn; [split; [lia | tauto] | exact I]. Qed.

Lemma entry_le_trans (a b c : option Entry) :
  entry_le a b -> entry_le b c -> entry_le a c.
Proof.
  destruct a as [ea|], b as [eb|], c as [ec|]; cbn; try tauto.
  intros [H1 H2] [H3 H4]. split; [lia | tauto].
Qed.

Lemma entry_le_record_failure (entry : option Entry) (now_lock : N) :
  entry_le entry (Some (record_failure entry now_lock)).
Proof.
  destruct entry as [e|]; [|exact I]. cbn. split.
  - rewrite record_failure_count. cbn. lia.
  - intros Hs. unfold record_failure. cbn.
    match goal with |- context [if ?c then _ else _] => destruct c end;
      cbn; eauto.
Qed.

(** One call either deletes the caller's entry, answering [Allowed], or moves
    every entry of the map upwards. *)
Lemma guard_step_entry
    (pw : jsstring) (fa : gmap jsstring Entry) (req : Request)
    (now now_lock : N) (k : jsstring) :
  let res := requirePasswordForRequest pw fa req now now_lock in
  (fst res = Allowed /\ req_ip req = k /\ snd res !! k = None)
  \/ entry_le (fa !! k) (snd res !! k).
Proof.
  cbv zeta.
  destruct (block_active (fa !! req_ip req) now) eqn:Hact.
  { rewrite guard_blocked by exact Hact. right. apply entry_le_refl. }
  destruct (mismatch pw req) eqn:Hmis.
  - rewrite guard_mismatch by assumption. right. cbn [snd].
    destruct (decide (req_ip req = k)) as [->|Hne].
    + rewrite lookup_insert_eq. apply entry_le_record_failure.
    + rewrite lookup_insert_ne by exact Hne. apply entry_le_refl.
  - rewrite guard_match by assumption. cbn [fst snd].
    destruct (decide (req_ip req = k)) as [->|Hne].
    + left. rewrite lookup_delete_eq. auto.
    + right. rewrite lookup_delete_ne by exact Hne. apply entry_le_refl.
Qed.

Lemma run_guard_entry_le
    (pw : jsstring) (k : jsstring) (calls : list Call) :
  forall fa : gmap jsstring Entry,
    never_allowed k calls (fst (run_guard pw fa calls)) ->
    entry_le (fa !! k) (snd (run_guard pw fa calls) !! k).
Proof.
  induction calls as [|c rest IH]; intros fa Hnever.
  - cbn. apply entry_le_refl.
  - cbn [run_guard] in *.
    pose proof (guard_step_entry pw fa (call_req c) (call_now c)
                  (call_now_lock c) k) as Hstep.
    destruct (requirePasswordForRequest pw fa (call_req c) (call_now c)
                (call_now_lock c)) as [out fa1].
    specialize (IH fa1).
    destruct (run_guard pw fa1 rest) as [outs fa2].
    cbn [fst snd never_allowed] in *.
    destruct Hnever as [Hout Hrest].
    destruct Hstep as [(Hall & Hip & _) | Hle].
    + exfalso. exact (Hout Hip Hall).
    + eapply entry_le_trans; [exact Hle | exact (IH Hrest)].
Qed.

(** C8. The middleware takes an entry away only by deleting it whole in a
    call that it answers [Allowed]; in every other call, and over every
    sequence of calls without such a call by the client, the client's count
    does not go down and a [blockedUntil] that is set stays set. So an entry
    whose lock has run out still holds its count of five or more, and one
    more mismatch by that client sets [blockedUntil] to the clock plus the
    full lock duration. *)
Theorem C8_entries_only_grow_until_deleted
    (SERVER_PASSWORD : jsstring) (failedAttempts : gmap jsstring Entry)
    (calls : list Call) (k : jsstring) :
  never_allowed k calls (fst (run_guard SERVER_PASSWORD failedAttempts calls)) ->
  let fa' := snd (run_guard SERVER_PASSWORD failedAttempts calls) in
  entry_le (failedAttempts !! k) (fa' !! k)
  /\ (forall (req : Request) (now now_lock : N),
        let res := requirePasswordForRequest SERVER_PASSWORD fa' req now now_lock in
        (fst res = Allowed /\ req_ip req = k /\ snd res !! k = None)
        \/ entry_le (fa' !! k) (snd res !! k))
  /\ (forall (e : Entry) (until : N) (req : Request) (now now_lock : N),
        fa' !! k = Some e ->
        PASSWORD_MAX_FAILURES <= count e ->
        blockedUntil e = Some until ->
        until <= now ->
        req_ip req = k ->
        mismatch SERVER_PASSWORD req = true ->
        requirePasswordForRequest SERVER_PASSWORD fa' req now now_lock
        = (Denied,
           <[k := {| count := count e + 1;
                     blockedUntil := Some (now_lock + PASSWORD_LOCK_DURATION_MS) |}]> fa')).
Proof.
  intros Hnever fa'. split; [apply run_guard_entry_le; exact Hnever|].
  split; [intros req now now_lock; apply guard_step_entry|].
  intros e until req now now_lock He Hcount Hb Hexp Hip Hmis.
  rewrite guard_mismatch; [|rewrite Hip, He; eapply block_active_expired; eauto
                           |exact Hmis].
  rewrite Hip, He. f_equal. f_equal.
  unfold record_failure. cbn.
  destruct (PASSWORD_MAX_FAILURES <=? count e + 1) eqn:E; [reflexivity|].
  apply N.leb_gt in E. lia.
Qed.

Lemma C8_entries_only_grow_until_deleted_witness :
  let pw := str "pw" in
  let ip := str "10.0.0.7" in
  let wrong := key_request ip (Some (str "wrong")) in
  let calls := repeat {| call_req := wrong; call_now := 1000; call_now_lock := 1000 |} 5 in
  let fa' := snd (run_guard pw ∅ calls) in
  fa' !! ip = Some {| count := 5; blockedUntil := Some 3601000 |}
  /\ requirePasswordForRequest pw fa' wrong 3601000 3601001
     = (Denied, <[ip := {| count := 6; blockedUntil := Some 7201001 |}]> fa').
Proof.
  intros pw ip wrong calls fa'.
  split; [reflexivity|].
  refine (proj2 (proj2 (C8_entries_only_grow_until_deleted pw ∅ calls ip _))
            {| count := 5; blockedUntil := Some 3601000 |} 3601000 wrong
            3601000 3601001 _ _ _ _ _ _);
    [ vm_compute; repeat split; discriminate
    | reflexivity
    | unfold PASSWORD_MAX_FAILURES; cbn; lia
    | reflexivity
    | lia
    | reflexivity
    | reflexivity ].
Defined.

(** ** The name sanitizer *)

Example sanitize_spaces :
  sanitizeFileName (str "/tmp/my  cat (1).png") = str "my_cat_1.png".
Proof. reflexivity. Qed.

Example basename_samples :
  basename (str "a/b/") = str "b" /\ basename (str "///") = []
  /\ basename (str "x/..") = str ".." /\ basename (str "../x") = str "x".
Proof. repeat split. Qed.

Example path_join_samples :
  path_join (str "/app") (str "storage") = str "/app/storage"
  /\ path_join (str "/app/storage") (str "a.json") = str "/app/storage/a.json"
  /\ path_join (str "/app/storage") (str "..") = str "/app"
  /\ path_join (str "/app/storage") (str ".") = str "/app/storage"
  /\ path_join (str "/") (str "..") = str "/"
  /\ path_join (str "a/../..") (str "b/") = str "../b/".
Proof. repeat split. Qed.

Lemma is_safe_not_space (c : N) : is_safe c = true -> is_space c = false.
Proof.
  unfold is_safe, is_space. intros H.
  repeat (apply orb_prop in H; destruct H as [H|H]);
    try (apply andb_prop in H; destruct H as [H1 H2];
         apply N.leb_le in H1; apply N.leb_le in H2);
    try apply N.eqb_eq in H;
    repeat (apply orb_false_intro);
    try (apply andb_false_iff);
    try (apply N.eqb_neq; lia);
    try (left; apply N.leb_gt; lia);
    try (right; apply N.leb_gt; lia).
Qed.

Lemma is_safe_not_slash (c : N) : is_safe c = true -> is_slash c = false.
Proof.
  unfold is_safe, is_slash. intros H.
  repeat (apply orb_prop in H; destruct H as [H|H]);
    try (apply andb_prop in H; destruct H as [H1 H2];
         apply N.leb_le in H1; apply N.leb_le in H2);
    try apply N.eqb_eq in H;
    apply N.eqb_neq; lia.
Qed.

Lemma replace_spaces_safe (s : jsstring) :
  Forall (fun c => is_safe c = true) s ->
  forall in_run, replace_spaces in_run s = s.
Proof.
  induction 1 as [|c t Hc _ IH]; intros in_run; cbn; [reflexivity|].
  rewrite (is_safe_not_space c Hc). f_equal. apply IH.
Qed.

Lemma filter_safe_id (s : jsstring) :
  Forall (fun c => is_safe c = true) s -> List.filter is_safe s = s.
Proof.
  induction 1 as [|c t Hc _ IH]; cbn; [reflexivity|].
  rewrite Hc. f_equal. exact IH.
Qed.

Lemma filter_safe_Forall (s : jsstring) :
  Forall (fun c => is_safe c = true) (List.filter is_safe s).
Proof.
  induction s as [|c t IH]; cbn; [constructor|].
  destruct (is_safe c) eqn:E; [constructor; assumption | assumption].
Qed.

Lemma take_while_all (p : N -> bool) (s : jsstring) :
  Forall (fun c => p c = true) s -> take_while p s = s.
Proof.
  induction 1 as [|c t Hc _ IH]; cbn; [reflexivity|].
  rewrite Hc. f_equal. exact IH.
Qed.

Lemma drop_while_none (p : N -> bool) (s : jsstring) :
  Forall (fun c => p c = false) s -> drop_while p s = s.
Proof. destruct 1 as [|c t Hc _]; cbn; [reflexivity|]. rewrite Hc. reflexivity. Qed.

(** A name without a slash is its own base name. *)
Lemma basename_no_slash (s : jsstring) :
  Forall (fun c => is_slash c = false) s -> basename s = s.
Proof.
  intros H. unfold basename.
  assert (Hr : Forall (fun c => is_slash c = false) (rev s)).
  { apply List.Forall_rev. exact H. }
  rewrite drop_while_none by exact Hr.
  rewrite take_while_all.
  - apply rev_involutive.
  - eapply List.Forall_impl; [|exact Hr]. cbn. intros c Hc. rewrite Hc. reflexivity.
Qed.

Lemma str_file_safe : Forall (fun c => is_safe c = true) (str "file").
Proof. repeat constructor. Qed.

Lemma sanitizeFileName_safe (name : jsstring) :
  Forall (fun c => is_safe c = true) (sanitizeFileName name).
Proof.
  unfold sanitizeFileName.
  destruct (List.filter is_safe (replace_spaces false (basename name))) eqn:E; cbn.
  - exact str_file_safe.
  - rewrite <- E. apply filter_safe_Forall.
Qed.

Lemma sanitizeFileName_nonempty (name : jsstring) : sanitizeFileName name <> [].
Proof.
  unfold sanitizeFileName.
  destruct (List.filter is_safe (replace_spaces false (basename name)));
    cbn; discriminate.
Qed.

Lemma sanitizeFileName_no_slash (name : jsstring) :
  Forall (fun c => is_slash c = false) (sanitizeFileName name).
Proof.
  eapply List.Forall_impl; [|apply sanitizeFileName_safe].
  exact is_safe_not_slash.
Qed.

Lemma sanitizeFileName_fixed (s : jsstring) :
  Forall (fun c => is_safe c = true) s -> s <> [] -> sanitizeFileName s = s.
Proof.
  intros Hsafe Hne. unfold sanitizeFileName.
  rewrite basename_no_slash
    by (eapply List.Forall_impl; [exact is_safe_not_slash | exact Hsafe]).
  rewrite replace_spaces_safe by exact Hsafe.
  rewrite filter_safe_id by exact Hsafe.
  destruct s; [congruence | reflexivity].
Qed.

(** C7. [sanitizeFileName] is a function on all strings; its result is never
    empty and holds only characters of [[a-zA-Z0-9_.-]], so neither a slash
    nor a backslash; what precedes the last slash of the name is dropped;
    the result is ["file"] when nothing is left; for ["../../etc/passwd"]
    it is ["passwd"]; and sanitizing a sanitized name changes nothing. *)
Theorem C7_sanitize_total_safe_idempotent (x : jsstring) :
  (exists y : jsstring, sanitizeFileName x = y)
  /\ sanitizeFileName x <> []
  /\ Forall (fun c => is_safe c = true /\ c <> 47 /\ c <> 92) (sanitizeFileName x)
  /\ (forall dir : jsstring,
        Forall (fun c => is_slash c = false) x -> x <> [] ->
        sanitizeFileName (dir ++ 47 :: x) = sanitizeFileName x)
  /\ (List.filter is_safe (replace_spaces false (basename x)) = [] ->
        sanitizeFileName x = str "file")
  /\ sanitizeFileName (str "../../etc/passwd") = str "passwd"
  /\ sanitizeFileName (sanitizeFileName x) = sanitizeFileName x.
Proof.
  split; [eexists; reflexivity|].
  split; [apply sanitizeFileName_nonempty|].
  split.
  { eapply List.Forall_impl; [|apply sanitizeFileName_safe].
    intros c Hc. split; [exact Hc|].
    pose proof (is_safe_not_slash c Hc) as Hs. unfold is_slash in Hs.
    apply N.eqb_neq in Hs. split; [exact Hs|].
    intros ->. discriminate Hc. }
  split.
  { intros dir Hx Hne. unfold sanitizeFileName.
    assert (Hb : basename (dir ++ 47 :: x) = basename x).
    { rewrite (basename_no_slash x Hx). unfold basename.
      rewrite rev_app_distr. cbn [rev]. rewrite <- app_assoc. cbn [app].
      assert (Hr : Forall (fun c => is_slash c = false) (rev x))
        by (apply List.Forall_rev; exact Hx).
      assert (Hrne : rev x <> []).
      { intros E. apply Hne. rewrite <- (rev_involutive x), E. reflexivity. }
      destruct (rev x) as [|c t] eqn:Ex; [congruence|].
      inversion Hr as [|? ? Hc Ht]; subst.
      cbn [app drop_while]. rewrite Hc. cbn [take_while]. rewrite Hc. cbn [negb].
      assert (Htw : take_while (fun c0 => negb (is_slash c0)) (t ++ 47 :: rev dir) = t).
      { clear -Ht. induction Ht as [|d t' Hd _ IH]; cbn; [reflexivity|].
        rewrite Hd. cbn. f_equal. exact IH. }
      rewrite Htw. rewrite <- Ex. apply rev_involutive. }
    rewrite Hb. reflexivity. }
  split.
  { intros E. unfold sanitizeFileName. rewrite E. reflexivity. }
  split; [reflexivity|].
  apply sanitizeFileName_fixed;
    [apply sanitizeFileName_safe | apply sanitizeFileName_nonempty].
Qed.

(** ** The pixel decoder *)

Example red_png_base64 :
  toString_base64 red2x2_png
  = str "iVBORw0KGgoAAAANSUhEUgAAAAIAAAACCAYAAABytg0kAAAAEUlEQVR4nGP4z8DwH4QZYAwAR8oH+WdZbrcAAAAASUVORK5CYII="
  /\ sample_Buffer_from_base64 (toString_base64 red2x2_png) = red2x2_png.
Proof. split; vm_compute; reflexivity. Qed.

Example red_pixels : pixels_of red_data = repeat red_pixel 4.
Proof. reflexivity. Qed.

Example ragged_pixels :
  pixels_of [Byte.x01; Byte.x02; Byte.x03; Byte.x04; Byte.x05]
  = [ {| r := Some 1; g := Some 2; b := Some 3; a := Some 4 |};
      {| r := Some 5; g := None; b := None; a := None |} ].
Proof. reflexivity. Qed.

Lemma hex_of_byte_inv (x : byte) :
  Byte.of_N (16 * unhex_digit (hex_digit (Byte.to_N x / 16))
             + unhex_digit (hex_digit (Byte.to_N x mod 16))) = Some x.
Proof. destruct x; vm_compute; reflexivity. Qed.

Lemma hex_of_byte_inj (x y : byte) : hex_of_byte x = hex_of_byte y -> x = y.
Proof.
  unfold hex_of_byte. intros H. injection H as H1 H2.
  pose proof (hex_of_byte_inv x) as Hx. pose proof (hex_of_byte_inv y) as Hy.
  rewrite H1, H2 in Hx. congruence.
Qed.

Lemma flat_map_hex_inj (l1 : list byte) :
  forall l2 : list byte,
    flat_map hex_of_byte l1 = flat_map hex_of_byte l2 -> l1 = l2.
Proof.
  induction l1 as [|x l1 IH]; intros [|y l2] H; cbn in H;
    try discriminate; [reflexivity|].
  injection H as H1 H2 H3.
  f_equal; [apply hex_of_byte_inj; unfold hex_of_byte; congruence | auto].
Qed.

Lemma startsWith_hex (p : list byte) :
  forall l : list byte,
    startsWith (flat_map hex_of_byte l) (flat_map hex_of_byte p) = true
    <-> firstn (length p) l = p.
Proof.
  induction p as [|y p IH]; intros l; cbn.
  - split; reflexivity.
  - destruct l as [|x l]; cbn; [split; discriminate|].
    rewrite !andb_true_iff, !N.eqb_eq, IH. split.
    + intros (H1 & H2 & H3). f_equal; [|exact H3].
      apply hex_of_byte_inj. unfold hex_of_byte. congruence.
    + intros H. injection H as -> H. auto.
Qed.

(** The three tests of the signature, read on the bytes. *)
Lemma isPNG_iff (buffer : list byte) :
  str_eqb (toString_hex buffer 8) (str "89504e470d0a1a0a") = true
  <-> firstn 8 buffer = PNG_MAGIC.
Proof.
  unfold str_eqb, toString_hex. rewrite bool_decide_eq_true.
  change (str "89504e470d0a1a0a") with (flat_map hex_of_byte PNG_MAGIC).
  split; [apply flat_map_hex_inj | intros ->; reflexivity].
Qed.

Lemma isJPEG3_iff (buffer : list byte) :
  startsWith (toString_hex buffer 4) (str "ffd8ff") = true
  <-> firstn 3 buffer = JPEG_MAGIC3.
Proof.
  unfold toString_hex.
  change (str "ffd8ff") with (flat_map hex_of_byte JPEG_MAGIC3).
  rewrite startsWith_hex. cbn [length JPEG_MAGIC3].
  rewrite firstn_firstn. reflexivity.
Qed.

Lemma isJPEG2_iff (buffer : list byte) :
  str_eqb (toString_hex buffer 2) (str "ffd8") = true
  <-> firstn 2 buffer = JPEG_MAGIC2.
Proof.
  unfold str_eqb, toString_hex. rewrite bool_decide_eq_true.
  change (str "ffd8") with (flat_map hex_of_byte JPEG_MAGIC2).
  split; [apply flat_map_hex_inj | intros ->; reflexivity].
Qed.

(** The loop over the samples: more rounds than the data has elements left
    change nothing, and data of [4 * m] elements gives [m] pixels. *)
Lemma push_pixels_enough (data : list byte) (fuel1 : nat) :
  forall (fuel2 i : nat) (acc : list Pixel),
    (length data - i <= fuel1)%nat -> (length data - i <= fuel2)%nat ->
    push_pixels fuel1 data i acc = push_pixels fuel2 data i acc.
Proof.
  induction fuel1 as [|f1 IH]; intros fuel2 i acc H1 H2.
  - destruct fuel2 as [|f2]; cbn [push_pixels]; [reflexivity|].
    destruct (i <? length data)%nat eqn:E; [|reflexivity].
    apply Nat.ltb_lt in E. lia.
  - destruct fuel2 as [|f2]; cbn [push_pixels];
      destruct (i <? length data)%nat eqn:E; try reflexivity.
    + apply Nat.ltb_lt in E. lia.
    + apply Nat.ltb_lt in E. apply IH; lia.
Qed.

Lemma push_pixels_length (data : list byte) (m : nat) :
  forall (fuel i : nat) (acc : list Pixel),
    length data = (i + 4 * m)%nat -> (m <= fuel)%nat ->
    length (push_pixels fuel data i acc) = (length acc + m)%nat.
Proof.
  induction m as [|m IH]; intros fuel i acc Hlen Hfuel.
  - destruct fuel as [|f]; cbn [push_pixels]; [lia|].
    destruct (i <? length data)%nat eqn:E; [|lia].
    apply Nat.ltb_lt in E. lia.
  - destruct fuel as [|f]; [lia|]. cbn [push_pixels].
    destruct (i <? length data)%nat eqn:E.
    + rewrite IH by lia. rewrite length_app. cbn. lia.
    + apply Nat.ltb_ge in E. lia.
Qed.

Lemma pixels_of_length (data : list byte) (m : nat) :
  length data = (4 * m)%nat -> length (pixels_of data) = m.
Proof.
  intros H. unfold pixels_of.
  rewrite (push_pixels_length data m) by lia. reflexivity.
Qed.

(** ** The routes *)

Lemma guarded_pass (pw : jsstring) (st : State) (req : Request) (clock : Clock)
    (handler : State -> Reply) :
  block_active (failedAttempts st !! req_ip req) (t_check clock) = false ->
  mismatch pw req = false ->
  guarded pw st req clock handler
  = handler {| failedAttempts := delete (req_ip req) (failedAttempts st);
               files := files st |}.
Proof.
  intros H1 H2. unfold guarded. rewrite guard_match by assumption. reflexivity.
Qed.

Lemma guarded_files (pw : jsstring) (st : State) (req : Request) (clock : Clock)
    (handler : State -> Reply) :
  (forall st' : State, files st' = files st -> files (after (handler st')) = files st) ->
  files (after (guarded pw st req clock handler)) = files st.
Proof.
  intros H. unfold guarded.
  destruct (requirePasswordForRequest pw (failedAttempts st) req
              (t_check clock) (t_lock clock)) as [[code text|] fa];
    [reflexivity | apply H; reflexivity].
Qed.

(** C4. A buffer that starts neither with the eight bytes of the PNG
    signature nor with the JPEG signature is rejected as an unsupported
    format, and nothing is written: by [imageBufferToPixelJSON], which looks
    for the three bytes [FF D8 FF], and through it by [/uploadJson], where
    the files stay as they were and no call of fs-extra is made; and by the
    upload route of index.js, which looks for the two bytes [FF D8]. *)
Theorem C4_unknown_signature_is_unsupported
    (PNG_sync_read jpeg_decode : list byte -> jsstring + Bitmap.t)
    (buf : list byte) :
  firstn 8 buf <> PNG_MAGIC ->
  (firstn 3 buf <> JPEG_MAGIC3 ->
     imageBufferToPixelJSON PNG_sync_read jpeg_decode buf = inl UnsupportedFormat
     /\ forall (pw : jsstring) (from_base64 : jsstring -> list byte)
               (toISOString : N -> jsstring) (dir : jsstring)
               (st : State) (req : Request) (clock : Clock),
          from_base64 (default [] (js_or (body_imageBase64 req) (body_image req))) = buf ->
          let reply := post_uploadJson pw PNG_sync_read jpeg_decode from_base64
                         toISOString dir st req clock in
          files (after reply) = files st
          /\ calls reply = []
          /\ (fst (requirePasswordForRequest pw (failedAttempts st) req
                     (t_check clock) (t_lock clock)) = Allowed ->
              truthy (js_or (body_imageBase64 req) (body_image req)) = true ->
              response reply
              = {| status := 500;
                   body := json_error (str "Unsupported file type (not PNG/JPEG)") |}))
  /\ (firstn 2 buf <> JPEG_MAGIC2 ->
      forall (req : Request) (name : option jsstring),
        req_file req = Some {| buffer := buf; originalname := name |} ->
        Index.post_upload req
        = {| status := 400; body := Text (str "Unsupported file type.") |}).
Proof.
  intros Hpng.
  assert (HisPNG : str_eqb (toString_hex buf 8) (str "89504e470d0a1a0a") = false).
  { apply not_true_is_false. rewrite isPNG_iff. exact Hpng. }
  split.
  - intros Hjpeg.
    assert (HisJPEG : startsWith (toString_hex buf 4) (str "ffd8ff") = false).
    { apply not_true_is_false. rewrite isJPEG3_iff. exact Hjpeg. }
    assert (Hdec : imageBufferToPixelJSON PNG_sync_read jpeg_decode buf
                   = inl UnsupportedFormat).
    { unfold imageBufferToPixelJSON. rewrite HisPNG, HisJPEG. reflexivity. }
    split; [exact Hdec|].
    intros pw from_base64 toISOString dir st req clock Hbuf reply. subst reply.
    unfold post_uploadJson, guarded.
    destruct (requirePasswordForRequest pw (failedAttempts st) req
                (t_check clock) (t_lock clock)) as [[code text|] fa]; cbn [fst].
    + repeat split; try reflexivity. discriminate.
    + rewrite Hbuf, Hdec.
      destruct (negb (truthy (body_imageBase64 req)) && negb (truthy (body_image req)))
        eqn:Emiss; cbn.
      * repeat split; try reflexivity. intros _ Ht.
        unfold js_or in Ht. apply andb_prop in Emiss. destruct Emiss as [E1 E2].
        apply negb_true_iff in E1, E2. rewrite E1, E2 in Ht. discriminate.
      * repeat split; reflexivity.
  - intros Hjpeg req name Hfile. unfold Index.post_upload. rewrite Hfile. cbn [buffer].
    rewrite HisPNG.
    assert (HisJPEG : str_eqb (toString_hex buf 2) (str "ffd8") = false).
    { apply not_true_is_false. rewrite isJPEG2_iff. exact Hjpeg. }
    rewrite HisJPEG. reflexivity.
Qed.

Lemma C4_unknown_signature_is_unsupported_witness :
  let gif := [Byte.x47; Byte.x49; Byte.x46; Byte.x38; Byte.x39; Byte.x61] in
  imageBufferToPixelJSON sample_PNG_sync_read sample_jpeg_decode gif
    = inl UnsupportedFormat
  /\ Index.post_upload (form_request (str "10.0.0.7") []
                          (Some {| buffer := gif; originalname := None |}))
     = {| status := 400; body := Text (str "Unsupported file type.") |}.
Proof.
  intros gif.
  assert (H8 : firstn 8 gif <> PNG_MAGIC) by discriminate.
  assert (H3 : firstn 3 gif <> JPEG_MAGIC3) by discriminate.
  assert (H2 : firstn 2 gif <> JPEG_MAGIC2) by discriminate.
  split.
  - exact (proj1 (proj1 (C4_unknown_signature_is_unsupported
                           sample_PNG_sync_read sample_jpeg_decode gif H8) H3)).
  - exact (proj2 (C4_unknown_signature_is_unsupported
                    sample_PNG_sync_read sample_jpeg_decode gif H8) H2
             (form_request (str "10.0.0.7") []
                (Some {| buffer := gif; originalname := None |}))
             None eq_refl).
Defined.

(** C5. Let the PNG reader return bitmaps of four samples per pixel, as
    pngjs does. Then for a buffer that starts with the eight bytes of the
    PNG signature, [imageBufferToPixelJSON] does not fail with
    [UnsupportedFormat]: it returns an image with exactly [width * height]
    pixels, or it fails with the error of the reader. *)
Theorem C5_png_signature_decodes_or_fails
    (PNG_sync_read jpeg_decode : list byte -> jsstring + Bitmap.t)
    (buf : list byte) :
  (forall (input : list byte) (png : Bitmap.t),
      PNG_sync_read input = inr png ->
      N.of_nat (length (Bitmap.data png)) = 4 * (Bitmap.width png * Bitmap.height png)) ->
  firstn 8 buf = PNG_MAGIC ->
  imageBufferToPixelJSON PNG_sync_read jpeg_decode buf <> inl UnsupportedFormat
  /\ ((exists image : PixelImage,
         imageBufferToPixelJSON PNG_sync_read jpeg_decode buf = inr image
         /\ N.of_nat (length (pixels image)) = width image * height image)
      \/ (exists message : jsstring,
            imageBufferToPixelJSON PNG_sync_read jpeg_decode buf
            = inl (DecodeFailure message))).
Proof.
  intros Hlib Hmagic.
  apply isPNG_iff in Hmagic.
  unfold imageBufferToPixelJSON. rewrite Hmagic. cbn [negb andb].
  destruct (PNG_sync_read buf) as [message|png] eqn:Eread.
  - split; [discriminate|]. right. eexists. reflexivity.
  - split; [discriminate|]. left. eexists. split; [reflexivity|].
    cbn [pixels width height].
    specialize (Hlib buf png Eread).
    rewrite (pixels_of_length (Bitmap.data png)
               (N.to_nat (Bitmap.width png * Bitmap.height png))); lia.
Qed.

Lemma sample_PNG_sync_read_samples (input : list byte) (png : Bitmap.t) :
  sample_PNG_sync_read input = inr png ->
  N.of_nat (length (Bitmap.data png)) = 4 * (Bitmap.width png * Bitmap.height png).
Proof.
  unfold sample_PNG_sync_read. case_bool_decide; [|discriminate].
  intros Hpng. injection Hpng as <-. reflexivity.
Qed.

Lemma C5_png_signature_decodes_or_fails_witness :
  imageBufferToPixelJSON sample_PNG_sync_read sample_jpeg_decode red2x2_png
  <> inl UnsupportedFormat.
Proof.
  exact (proj1 (C5_png_signature_decodes_or_fails
                  sample_PNG_sync_read sample_jpeg_decode red2x2_png
                  sample_PNG_sync_read_samples eq_refl)).
Defined.

Lemma string_of_uint_digits (u : Decimal.uint) :
  Forall (fun c => is_safe c = true) (str (NilEmpty.string_of_uint u)).
Proof.
  induction u; cbn; try constructor; try reflexivity; assumption.
Qed.

Lemma num_to_str_safe (n : N) : Forall (fun c => is_safe c = true) (num_to_str n).
Proof.
  unfold num_to_str, NilZero.string_of_uint.
  destruct (N.to_uint n) eqn:E; try (rewrite <- E; apply string_of_uint_digits).
  repeat constructor.
Qed.

Lemma file_name_safe (clock : Clock) (name : jsstring) :
  Forall (fun c => is_safe c = true) (file_name clock (sanitizeFileName name)).
Proof.
  unfold file_name. repeat apply Forall_app_2.
  - apply num_to_str_safe.
  - repeat constructor.
  - apply sanitizeFileName_safe.
  - repeat constructor.
Qed.

(** The name of a stored file is its own base name. *)
Lemma basename_file_name (clock : Clock) (name : jsstring) :
  basename (file_name clock (sanitizeFileName name))
  = file_name clock (sanitizeFileName name).
Proof.
  apply basename_no_slash.
  eapply List.Forall_impl; [exact is_safe_not_slash | apply file_name_safe].
Qed.

Lemma writeJson_file (fs : gmap jsstring Node) (path : jsstring) (doc : JSON) :
  fs !! path <> Some Dir -> writeJson fs path doc = inr (<[path := JsonFile doc]> fs).
Proof.
  intros H. unfold writeJson. destruct (fs !! path) as [[| |]|]; congruence.
Qed.

Lemma decode_png
    (PNG_sync_read jpeg_decode : list byte -> jsstring + Bitmap.t)
    (buf : list byte) (png : Bitmap.t) :
  firstn 8 buf = PNG_MAGIC ->
  PNG_sync_read buf = inr png ->
  imageBufferToPixelJSON PNG_sync_read jpeg_decode buf
  = inr {| width := Bitmap.width png; height := Bitmap.height png;
           pixels := pixels_of (Bitmap.data png) |}.
Proof.
  intros Hmagic Hread. apply isPNG_iff in Hmagic.
  unfold imageBufferToPixelJSON. rewrite Hmagic, Hread. reflexivity.
Qed.

Lemma image_field_present (req : Request) :
  truthy (js_or (body_imageBase64 req) (body_image req)) = true ->
  negb (truthy (body_imageBase64 req)) && negb (truthy (body_image req)) = false.
Proof.
  unfold js_or. destruct (truthy (body_imageBase64 req)); [reflexivity|].
  intros ->. reflexivity.
Qed.

(** What [/getImage/:name] does once the middleware has let the request
    through: one look at the joined path, one read when something is there,
    and no change to the files. *)
Lemma getImage_found (pw dir : jsstring) (st : State) (req : Request)
    (clock : Clock) (doc : JSON) :
  block_active (failedAttempts st !! req_ip req) (t_check clock) = false ->
  mismatch pw req = false ->
  files st !! path_join (STORAGE_DIR dir) (basename (params_name req))
    = Some (JsonFile doc) ->
  get_getImage pw dir st req clock
  = {| response := {| status := 200; body := Json doc |};
       after := {| failedAttempts := delete (req_ip req) (failedAttempts st);
                   files := files st |};
       calls := [PathExists (path_join (STORAGE_DIR dir) (basename (params_name req)));
                 ReadJson (path_join (STORAGE_DIR dir) (basename (params_name req)))] |}.
Proof.
  intros Hna Hok Hfile. unfold get_getImage.
  rewrite guarded_pass by assumption. cbn [files].
  unfold pathExists, readJson. rewrite Hfile.
  rewrite bool_decide_eq_true_2 by eauto. reflexivity.
Qed.

Lemma getImage_not_found (pw dir : jsstring) (st : State) (req : Request)
    (clock : Clock) :
  block_active (failedAttempts st !! req_ip req) (t_check clock) = false ->
  mismatch pw req = false ->
  files st !! path_join (STORAGE_DIR dir) (basename (params_name req)) = None ->
  get_getImage pw dir st req clock
  = {| response := {| status := 404; body := Text (str "Not found") |};
       after := {| failedAttempts := delete (req_ip req) (failedAttempts st);
                   files := files st |};
       calls := [PathExists (path_join (STORAGE_DIR dir) (basename (params_name req)))] |}.
Proof.
  intros Hna Hok Hfile. unfold get_getImage.
  rewrite guarded_pass by assumption. cbn [files].
  unfold pathExists. rewrite Hfile.
  rewrite bool_decide_eq_false_2 by (intros [? ?]; discriminate). reflexivity.
Qed.

Lemma getImage_calls (pw dir : jsstring) (st : State) (req : Request) (clock : Clock) :
  let path := path_join (STORAGE_DIR dir) (basename (params_name req)) in
  files (after (get_getImage pw dir st req clock)) = files st
  /\ Forall (fun c => c = PathExists path \/ c = ReadJson path)
       (calls (get_getImage pw dir st req clock)).
Proof.
  cbv zeta. unfold get_getImage, guarded.
  destruct (requirePasswordForRequest pw (failedAttempts st) req
              (t_check clock) (t_lock clock)) as [[code text|] fa]; cbn [files].
  - split; [reflexivity | constructor].
  - destruct (pathExists (files st) _); cbn [negb].
    + destruct (readJson (files st) _); cbn; (split; [reflexivity|]);
        (apply Forall_cons; split; [left; reflexivity|]);
        (apply Forall_cons; split; [right; reflexivity | apply Forall_nil_2]).
    + cbn. split; [reflexivity|].
      apply Forall_cons; split; [left; reflexivity | apply Forall_nil_2].
Qed.

(** C2, as stated, fails on the form route: [/upload] with the right
    password and the red PNG file answers 200 and stores a document that
    holds the file in base64 and has no [width], [height] or [pixels]. *)
Lemma C2_form_upload_stores_base64 :
  let file := {| buffer := red2x2_png; originalname := Some (str "red.png") |} in
  let req := form_request (str "10.0.0.7") (str "pw") (Some file) in
  let reply := post_upload (str "pw") sample_toISOString (str "/app")
                 sample_state req sample_clock in
  sample_PNG_sync_read red2x2_png = inr red_bitmap
  /\ pixels_of (Bitmap.data red_bitmap) = repeat red_pixel 4
  /\ status (response reply) = 200
  /\ exists doc : JSON,
       files (after reply) !! str "/app/storage/1700000000001_red.png.json"
         = Some (JsonFile doc)
       /\ json_get (str "width") doc = None
       /\ json_get (str "height") doc = None
       /\ json_get (str "pixels") doc = None
       /\ json_get (str "imageBase64") doc = Some (JStr (toString_base64 red2x2_png)).
Proof.
  cbv zeta. split; [reflexivity|]. split; [reflexivity|]. split; [reflexivity|].
  eexists. split; [vm_compute; reflexivity|].
  repeat split; reflexivity.
Qed.

(** C2, amended. On the JSON route [/uploadJson], for a request that passes
    the middleware and carries an image whose bytes start with the PNG
    signature and which the PNG reader decodes to the two by two bitmap of
    opaque red samples, with no directory in the way of the new file: the
    answer is [{ success: true, filename }]; the document stored under that
    name in the storage directory has [width] 2, [height] 2 and exactly four
    pixels [{r:255, g:0, b:0, a:255}]; and [/getImage/:name] with the
    returned name, by a request that passes the middleware, answers with
    that same document. *)
Theorem C2_json_upload_stores_pixels_and_reads_back
    (pw : jsstring)
    (PNG_sync_read jpeg_decode : list byte -> jsstring + Bitmap.t)
    (from_base64 : jsstring -> list byte) (toISOString : N -> jsstring)
    (dir : jsstring) (st : State) (req : Request) (clock : Clock) :
  let b64 := default [] (js_or (body_imageBase64 req) (body_image req)) in
  let fileName :=
    file_name clock
      (sanitizeFileName (default [] (js_or (body_name req) (Some (str "upload"))))) in
  let filePath := path_join (STORAGE_DIR dir) fileName in
  let reply := post_uploadJson pw PNG_sync_read jpeg_decode from_base64
                 toISOString dir st req clock in
  block_active (failedAttempts st !! req_ip req) (t_check clock) = false ->
  mismatch pw req = false ->
  truthy (js_or (body_imageBase64 req) (body_image req)) = true ->
  firstn 8 (from_base64 b64) = PNG_MAGIC ->
  PNG_sync_read (from_base64 b64) = inr red_bitmap ->
  files st !! filePath <> Some Dir ->
  response reply
  = {| status := 200;
       body := Json (JObj [(str "success", JBool true);
                           (str "filename", JStr fileName)]) |}
  /\ calls reply = [WriteJson filePath]
  /\ exists doc : JSON,
       files (after reply) = <[filePath := JsonFile doc]> (files st)
       /\ files (after reply) !! filePath = Some (JsonFile doc)
       /\ json_get (str "filename") doc = Some (JStr fileName)
       /\ json_get (str "width") doc = Some (JNum 2)
       /\ json_get (str "height") doc = Some (JNum 2)
       /\ json_get (str "pixels") doc
          = Some (JArr (repeat (JObj [(str "r", JNum 255); (str "g", JNum 0);
                                      (str "b", JNum 0); (str "a", JNum 255)]) 4))
       /\ forall (guard : gmap jsstring Entry) (req2 : Request) (clock2 : Clock),
            params_name req2 = fileName ->
            block_active (guard !! req_ip req2) (t_check clock2) = false ->
            mismatch pw req2 = false ->
            response (get_getImage pw dir
                        {| failedAttempts := guard; files := files (after reply) |}
                        req2 clock2)
            = {| status := 200; body := Json doc |}.
Proof.
  intros b64 fileName filePath reply Hna Hok Himg Hmagic Hread Hnodir.
  subst reply. unfold post_uploadJson.
  rewrite guarded_pass by assumption.
  rewrite (image_field_present req Himg).
  fold b64. rewrite (decode_png _ _ _ _ Hmagic Hread).
  cbn [files width height pixels]. fold fileName. fold filePath.
  rewrite writeJson_file by exact Hnodir.
  cbn [response after calls files].
  split; [reflexivity|]. split; [reflexivity|].
  eexists. split; [reflexivity|].
  split; [apply lookup_insert_eq|].
  split; [reflexivity|]. split; [reflexivity|]. split; [reflexivity|].
  split; [reflexivity|].
  intros guard req2 clock2 Hname Hna2 Hok2.
  erewrite getImage_found; [reflexivity | exact Hna2 | exact Hok2 |].
  cbn [files]. rewrite Hname. unfold fileName at 1.
  rewrite basename_file_name. fold fileName. fold filePath.
  apply lookup_insert_eq.
Qed.

Lemma C2_json_upload_stores_pixels_and_reads_back_witness :
  let pw := str "pw" in
  let b64 := toString_base64 red2x2_png in
  let req := json_request (str "10.0.0.7") pw (Some b64) (Some (str "red.png")) [] in
  let reply := post_uploadJson pw sample_PNG_sync_read sample_jpeg_decode
                 sample_Buffer_from_base64 sample_toISOString (str "/app")
                 sample_state req sample_clock in
  response reply
  = {| status := 200;
       body := Json (JObj [(str "success", JBool true);
                           (str "filename", JStr (str "1700000000001_red.png.json"))]) |}.
Proof.
  intros pw b64 req reply.
  refine (proj1 (C2_json_upload_stores_pixels_and_reads_back pw
                   sample_PNG_sync_read sample_jpeg_decode
                   sample_Buffer_from_base64 sample_toISOString (str "/app")
                   sample_state req sample_clock _ _ _ _ _ _));
    [ reflexivity | reflexivity | reflexivity
    | vm_compute; reflexivity | vm_compute; reflexivity
    | vm_compute; discriminate ].
Defined.

(** C10, at a name whose last segment is [..]. The name [x/..] has the base
    name [..]; joined to the storage directory [/app/storage] it is the
    directory [/app] above it. The handler asks whether [/app] exists, reads
    it, and answers 500, not 404: both calls of fs-extra are made on a path
    that is not inside the storage directory. *)
Theorem C10_dotdot_reaches_parent_directory :
  let pw := str "pw" in
  let req := json_request (str "10.0.0.7") pw None None (str "x/..") in
  let reply := get_getImage pw (str "/app") sample_state req sample_clock in
  STORAGE_DIR (str "/app") = str "/app/storage"
  /\ basename (params_name req) = str ".."
  /\ path_join (STORAGE_DIR (str "/app")) (basename (params_name req)) = str "/app"
  /\ startsWith (str "/app") (STORAGE_DIR (str "/app")) = false
  /\ calls reply = [PathExists (str "/app"); ReadJson (str "/app")]
  /\ response reply = {| status := 500; body := Text (str "Server error") |}
  /\ calls (get_getImage pw (str "/app") sample_state
              (json_request (str "10.0.0.7") pw None None (str "..")) sample_clock)
     = [PathExists (str "/app"); ReadJson (str "/app")].
Proof.
  cbv zeta. repeat split; vm_compute; reflexivity.
Qed.

(** ** Paths below the storage directory *)

Lemma basename_slash_free (p : jsstring) :
  Forall (fun c => is_slash c = false) (basename p).
Proof.
  unfold basename. apply List.Forall_rev.
  generalize (drop_while is_slash (rev p)). intros l.
  induction l as [|c t IH]; cbn; [constructor|].
  destruct (is_slash c) eqn:E; cbn; constructor; assumption.
Qed.

Lemma split_slash_app (seg rest : jsstring) :
  Forall (fun c => is_slash c = false) seg ->
  split_slash (seg ++ 47 :: rest) = seg :: split_slash rest.
Proof.
  induction 1 as [|c t Hc _ IH]; cbn [app split_slash].
  - reflexivity.
  - rewrite Hc, IH. reflexivity.
Qed.

Lemma split_slash_segment (seg : jsstring) :
  Forall (fun c => is_slash c = false) seg -> split_slash seg = [seg].
Proof.
  induction 1 as [|c t Hc _ IH]; cbn [split_slash]; [reflexivity|].
  rewrite Hc, IH. reflexivity.
Qed.

Lemma split_join_slash (segs : list jsstring) :
  Forall plain_segment segs -> segs <> [] ->
  split_slash (join_slash segs) = segs.
Proof.
  induction 1 as [|seg rest Hseg Hrest IH]; intros Hne; [congruence|].
  destruct Hseg as (_ & _ & _ & Hfree).
  destruct rest as [|seg2 rest]; cbn [join_slash].
  - apply split_slash_segment. exact Hfree.
  - rewrite split_slash_app by exact Hfree. f_equal. apply IH. discriminate.
Qed.

Lemma normalize_plain_segments (allow : bool) (segs : list jsstring) :
  Forall plain_segment segs ->
  forall stack : list jsstring,
    normalize_segments allow stack segs = rev stack ++ segs.
Proof.
  induction 1 as [|seg rest Hseg _ IH]; intros stack; cbn [normalize_segments].
  - rewrite app_nil_r. reflexivity.
  - destruct Hseg as (H1 & H2 & H3 & _). unfold str_eqb.
    rewrite !bool_decide_eq_false_2 by assumption. cbn [orb].
    rewrite IH. cbn [rev]. rewrite <- app_assoc. reflexivity.
Qed.

Lemma join_slash_snoc (segs : list jsstring) (seg : jsstring) :
  segs <> [] -> join_slash (segs ++ [seg]) = join_slash segs ++ 47 :: seg.
Proof.
  induction segs as [|s1 rest IH]; intros Hne; [congruence|].
  destruct rest as [|s2 rest]; [reflexivity|].
  change (join_slash ((s1 :: s2 :: rest) ++ [seg]))
    with (s1 ++ 47 :: join_slash ((s2 :: rest) ++ [seg])).
  rewrite IH by discriminate.
  change (join_slash (s1 :: s2 :: rest)) with (s1 ++ 47 :: join_slash (s2 :: rest)).
  rewrite <- app_assoc. reflexivity.
Qed.

Lemma list_last_app {A : Type} (l1 l2 : list A) (d : A) :
  l2 <> [] -> List.last (l1 ++ l2) d = List.last l2 d.
Proof.
  intros Hne. induction l1 as [|x l1 IH]; [reflexivity|].
  cbn [app]. destruct (l1 ++ l2) as [|y l] eqn:E.
  - apply app_eq_nil in E. destruct E. congruence.
  - rewrite <- IH. reflexivity.
Qed.

Lemma last_join_slash (segs : list jsstring) :
  Forall plain_segment segs -> segs <> [] ->
  join_slash segs <> []
  /\ is_slash (List.last (47 :: join_slash segs) 0) = false.
Proof.
  induction 1 as [|seg rest Hseg Hrest IH]; intros Hne; [congruence|].
  destruct rest as [|seg2 rest].
  - cbn [join_slash]. destruct Hseg as (Hn & _ & _ & Hfree).
    split; [exact Hn|].
    destruct seg as [|c t]; [congruence|].
    change (List.last (47 :: c :: t) 0) with (List.last (c :: t) 0).
    assert (Hin : In (List.last (c :: t) 0) (c :: t)).
    { destruct (exists_last (l := c :: t)) as (l' & x & E); [discriminate|].
      rewrite E, last_last. apply in_or_app. right. left. reflexivity. }
    rewrite List.Forall_forall in Hfree. apply Hfree. exact Hin.
  - destruct (IH ltac:(discriminate)) as [Hn Hlast].
    change (join_slash (seg :: seg2 :: rest))
      with (seg ++ 47 :: join_slash (seg2 :: rest)).
    split; [destruct seg; discriminate|].
    rewrite app_comm_cons, list_last_app by discriminate. exact Hlast.
Qed.

(** A path of plain segments under the root is its own normal form. *)
Lemma path_normalize_plain (segs : list jsstring) :
  Forall plain_segment segs -> segs <> [] ->
  path_normalize (47 :: join_slash segs) = 47 :: join_slash segs.
Proof.
  intros Hplain Hne. unfold path_normalize.
  destruct (last_join_slash segs Hplain Hne) as [Hbody Hlast].
  rewrite Hlast. cbn [is_slash N.eqb Pos.eqb negb].
  change (split_slash (47 :: join_slash segs))
    with ([] :: split_slash (join_slash segs)).
  rewrite split_join_slash by assumption.
  cbn [normalize_segments].
  change (str_eqb [] []) with true. cbn [orb].
  rewrite normalize_plain_segments by exact Hplain. cbn [rev app].
  destruct (join_slash segs); [congruence | reflexivity].
Qed.

(** Below a storage directory of plain segments, a plain name is joined as a
    child of the directory. *)
Lemma path_join_child (storage : jsstring) (segs : list jsstring) (name : jsstring) :
  storage = 47 :: join_slash segs ->
  Forall plain_segment segs -> segs <> [] ->
  plain_segment name ->
  path_join storage name = storage ++ 47 :: name.
Proof.
  intros -> Hplain Hne Hname.
  assert (Hn : name <> []) by apply Hname.
  unfold path_join. destruct name as [|c t]; [congruence|].
  change ((47 :: join_slash segs) ++ 47 :: c :: t)
    with (47 :: (join_slash segs ++ 47 :: c :: t)).
  rewrite <- join_slash_snoc by exact Hne.
  apply path_normalize_plain.
  - apply Forall_app_2; [exact Hplain | constructor; [exact Hname | constructor]].
  - destruct segs; discriminate.
Qed.

(** The part of the record route that holds: whenever the base name of the
    requested name is neither empty nor [.] nor [..], the one path that the
    handler touches is the child of the storage directory with that name. *)
Lemma getImage_path_below_storage
    (dir : jsstring) (segs : list jsstring) (name : jsstring) :
  STORAGE_DIR dir = 47 :: join_slash segs ->
  Forall plain_segment segs -> segs <> [] ->
  basename name <> [] -> basename name <> str "." -> basename name <> str ".." ->
  path_join (STORAGE_DIR dir) (basename name)
  = STORAGE_DIR dir ++ 47 :: basename name.
Proof.
  intros Hdir Hplain Hne H1 H2 H3.
  eapply path_join_child; eauto.
  repeat split; try assumption. apply basename_slash_free.
Qed.

Lemma getImage_path_below_storage_witness :
  path_join (STORAGE_DIR (str "/app")) (basename (str "../1700000000001_red.png.json"))
  = str "/app/storage/1700000000001_red.png.json".
Proof.
  rewrite (getImage_path_below_storage (str "/app") [str "app"; str "storage"]);
    [reflexivity | reflexivity | | discriminate
    | vm_compute; discriminate | vm_compute; discriminate | vm_compute; discriminate ].
  repeat constructor; try discriminate.
Defined.

(* ===================================================================== *)
(** * Further properties of the access guard *)
(* ===================================================================== *)

(** X1. A call changes no entry but the caller's: the failures of one client
    never count against, lock or release another client. *)
Theorem guard_other_clients_untouched
    (pw : jsstring) (fa : gmap jsstring Entry) (req : Request)
    (now now_lock : N) (k : jsstring) :
  k <> req_ip req ->
  snd (requirePasswordForRequest pw fa req now now_lock) !! k = fa !! k.
Proof.
  intros Hne.
  destruct (block_active (fa !! req_ip req) now) eqn:Hact.
  { rewrite guard_blocked by exact Hact. reflexivity. }
  destruct (mismatch pw req) eqn:Hmis.
  - rewrite guard_mismatch by assumption. cbn [snd].
    apply lookup_insert_ne. congruence.
  - rewrite guard_match by assumption. cbn [snd].
    apply lookup_delete_ne. congruence.
Qed.

Lemma guard_other_clients_untouched_witness :
  let fa : gmap jsstring Entry :=
    {[ str "10.0.0.8" := {| count := 2; blockedUntil := None |} ]} in
  snd (requirePasswordForRequest (str "pw") fa
         (key_request (str "10.0.0.7") (Some (str "wrong"))) 5 5)
    !! str "10.0.0.8"
  = Some {| count := 2; blockedUntil := None |}.
Proof.
  intros fa.
  refine (guard_other_clients_untouched (str "pw") fa
            (key_request (str "10.0.0.7") (Some (str "wrong"))) 5 5
            (str "10.0.0.8") _).
  vm_compute. discriminate.
Defined.

(** X2. With a password that is not empty, the middleware calls [next()] exactly
    when no lock of the client is running and the resolved credential is the
    password; the password of the configuration block is never empty, and is
    the environment variable whenever that is set to a non-empty string. *)
Theorem guard_allowed_iff
    (env : option jsstring) (fa : gmap jsstring Entry) (req : Request)
    (now now_lock : N) :
  let pw := SERVER_PASSWORD_of_env env in
  pw <> []
  /\ (forall s : jsstring, env = Some s -> s <> [] -> pw = s)
  /\ (fst (requirePasswordForRequest pw fa req now now_lock) = Allowed
      <-> block_active (fa !! req_ip req) now = false /\ provided req = pw).
Proof.
  intros pw. split; [apply SERVER_PASSWORD_of_env_nonempty|]. split.
  { intros s -> Hs. subst pw. unfold SERVER_PASSWORD_of_env, js_or.
    destruct s; [congruence | reflexivity]. }
  split.
  - intros Hall.
    destruct (block_active (fa !! req_ip req) now) eqn:Hact.
    { rewrite guard_blocked in Hall by exact Hact. discriminate. }
    destruct (mismatch pw req) eqn:Hmis.
    { rewrite guard_mismatch in Hall by assumption. discriminate. }
    split; [reflexivity|].
    unfold mismatch in Hmis. apply orb_false_elim in Hmis. destruct Hmis as [_ Heq].
    apply negb_false_iff in Heq. unfold str_eqb in Heq.
    apply bool_decide_eq_true in Heq. exact Heq.
  - intros [Hact Hp]. rewrite guard_match; [reflexivity | exact Hact |].
    apply mismatch_correct; [apply SERVER_PASSWORD_of_env_nonempty | exact Hp].
Qed.

(** X3. The order of the places where the credential is looked for: a non-empty
    [x-api-key] header is the credential whatever the body, the query and
    the [authorization] header hold, so a wrong key in the header makes the
    request a mismatch even when the right password is in the body; an
    absent or empty place passes the turn to the next one; and when all four
    are absent or empty the credential is the empty string. *)
Theorem provided_precedence (req : Request) :
  (truthy (header_x_api_key req) = true ->
     Some (provided req) = header_x_api_key req
     /\ forall pw : jsstring,
          header_x_api_key req <> Some pw -> mismatch pw req = true)
  /\ (truthy (header_x_api_key req) = false ->
      truthy (body_password req) = true ->
      Some (provided req) = body_password req)
  /\ (truthy (header_x_api_key req) = false ->
      truthy (body_password req) = false ->
      truthy (query_password req) = true ->
      Some (provided req) = query_password req)
  /\ (truthy (header_x_api_key req) = false ->
      truthy (body_password req) = false ->
      truthy (query_password req) = false ->
      truthy (header_authorization req) = true ->
      Some (provided req) = header_authorization req)
  /\ (truthy (header_x_api_key req) = false ->
      truthy (body_password req) = false ->
      truthy (query_password req) = false ->
      truthy (header_authorization req) = false ->
      provided req = []).
Proof.
  destruct req as [ip h bp qp ha fl im1 im2 nm pn].
  unfold mismatch, provided, js_or.
  cbn [header_x_api_key body_password query_password header_authorization].
  destruct h as [[|c1 s1]|], bp as [[|c2 s2]|], qp as [[|c3 s3]|],
           ha as [[|c4 s4]|];
    cbn [truthy truthy_str default from_option id negb orb];
    repeat split; intros; try discriminate; try reflexivity;
    unfold str_eqb; rewrite bool_decide_eq_false_2 by congruence; reflexivity.
Qed.

Lemma provided_precedence_witness :
  let req := {| req_ip := str "10.0.0.7"; header_x_api_key := Some (str "wrong");
                body_password := Some (str "pw"); query_password := None;
                header_authorization := None; req_file := None;
                body_imageBase64 := None; body_image := None; body_name := None;
                params_name := [] |} in
  mismatch (str "pw") req = true.
Proof.
  intros req.
  refine (proj2 (proj1 (provided_precedence req) _) (str "pw") _);
    [reflexivity | vm_compute; discriminate].
Defined.

Lemma entry_ok_record_failure (entry : option Entry) (now_lock : N) :
  (forall e, entry = Some e -> entry_ok e) ->
  entry_ok (record_failure entry now_lock).
Proof.
  intros Hok. unfold entry_ok, record_failure.
  unfold PASSWORD_MAX_FAILURES, PASSWORD_LOCK_DURATION_MS in *.
  destruct entry as [e|]; cbn [default from_option id count blockedUntil].
  - destruct (Hok e eq_refl) as [H1 H2].
    unfold PASSWORD_MAX_FAILURES, PASSWORD_LOCK_DURATION_MS in *.
    destruct (5 <=? count e + 1) eqn:E;
      cbn [count blockedUntil].
    + apply N.leb_le in E. repeat split; lia.
    + apply N.leb_gt in E. split; [lia|].
      destruct (blockedUntil e) as [u|]; [lia | exact E].
  - change (5 <=? 0 + 1) with false. cbn [count blockedUntil]. split; lia.
Qed.

Lemma guard_step_entry_ok
    (pw : jsstring) (fa : gmap jsstring Entry) (req : Request) (now now_lock : N) :
  map_Forall (fun _ e => entry_ok e) fa ->
  map_Forall (fun _ e => entry_ok e)
    (snd (requirePasswordForRequest pw fa req now now_lock)).
Proof.
  intros Hall.
  destruct (block_active (fa !! req_ip req) now) eqn:Hact.
  { rewrite guard_blocked by exact Hact. exact Hall. }
  destruct (mismatch pw req) eqn:Hmis.
  - rewrite guard_mismatch by assumption. cbn [snd].
    apply map_Forall_insert_2; [|exact Hall].
    apply entry_ok_record_failure. intros e He. exact (Hall _ _ He).
  - rewrite guard_match by assumption. cbn [snd].
    apply map_Forall_delete. exact Hall.
Qed.

(** X4. Started with an empty map, the middleware only ever holds entries that
    count at least one failure and whose [blockedUntil] is set exactly when
    the count has reached [PASSWORD_MAX_FAILURES]; a [blockedUntil] that is
    set is at least the lock duration, so it is never the falsy number 0 that
    the block check would take for absent. *)
Theorem guard_entries_well_formed
    (pw : jsstring) (calls : list Call) (k : jsstring) (e : Entry) :
  snd (run_guard pw ∅ calls) !! k = Some e ->
  1 <= count e
  /\ (is_Some (blockedUntil e) <-> PASSWORD_MAX_FAILURES <= count e)
  /\ (forall until : N, blockedUntil e = Some until ->
        until <> 0 /\ PASSWORD_LOCK_DURATION_MS <= until).
Proof.
  assert (Hrun : forall (cs : list Call) (fa : gmap jsstring Entry),
             map_Forall (fun _ e => entry_ok e) fa ->
             map_Forall (fun _ e => entry_ok e) (snd (run_guard pw fa cs))).
  { induction cs as [|c rest IH]; intros fa Hfa; [exact Hfa|].
    cbn [run_guard].
    pose proof (guard_step_entry_ok pw fa (call_req c) (call_now c)
                  (call_now_lock c) Hfa) as Hstep.
    destruct (requirePasswordForRequest pw fa (call_req c) (call_now c)
                (call_now_lock c)) as [out fa1].
    specialize (IH fa1 Hstep).
    destruct (run_guard pw fa1 rest) as [outs fa2]. exact IH. }
  intros He.
  assert (Hok : entry_ok e).
  { exact (Hrun calls ∅ (map_Forall_empty _) k e He). }
  destruct Hok as [H1 H2]. split; [exact H1|].
  destruct (blockedUntil e) as [u|].
  - destruct H2 as [H2 H3]. split; [split; [intros _; exact H2 | eauto]|].
    intros u0 Hu. injection Hu as <-.
    unfold PASSWORD_LOCK_DURATION_MS in *. split; lia.
  - split; [|discriminate].
    split; [intros [? ?]; discriminate | intros; lia].
Qed.

Lemma guard_entries_well_formed_witness :
  let wrong := {| call_req := key_request (str "10.0.0.7") (Some (str "wrong"));
                  call_now := 1000; call_now_lock := 1000 |} in
  let e := {| count := 5; blockedUntil := Some 3601000 |} in
  snd (run_guard (str "pw") ∅ (repeat wrong 5)) !! str "10.0.0.7" = Some e
  /\ 1 <= count e
  /\ (is_Some (blockedUntil e) <-> PASSWORD_MAX_FAILURES <= count e).
Proof.
  intros wrong e.
  pose proof (guard_entries_well_formed (str "pw") (repeat wrong 5) (str "10.0.0.7")
                e eq_refl) as H.
  split; [reflexivity|]. split; [apply H | apply H].
Defined.

Lemma wrong_calls_run
    (pw ip : jsstring) (calls : list Call) :
  forall (fa : gmap jsstring Entry) (c0 : N),
    default 0 (count <$> fa !! ip) = c0 ->
    fa !! ip ≫= blockedUntil = None ->
    wrong_calls pw ip calls ->
    calls <> [] ->
    c0 + N.of_nat (length calls) <= PASSWORD_MAX_FAILURES ->
    fst (run_guard pw fa calls) = repeat Denied (length calls)
    /\ snd (run_guard pw fa calls) !! ip
       = Some {| count := c0 + N.of_nat (length calls);
                 blockedUntil :=
                   if c0 + N.of_nat (length calls) =? PASSWORD_MAX_FAILURES
                   then Some (call_now_lock (List.last calls {| call_req := key_request [] None;
                                                              call_now := 0;
                                                              call_now_lock := 0 |})
                              + PASSWORD_LOCK_DURATION_MS)
                   else None |}.
Proof.
  unfold PASSWORD_MAX_FAILURES.
  induction calls as [|c rest IH]; intros fa c0 Hc0 Hnb Hwrong Hne Hlen;
    [congruence|].
  inversion Hwrong as [|? ? [Hip Hmis] Hrest]; subst.
  cbn [run_guard].
  assert (Hact : block_active (fa !! req_ip (call_req c)) (call_now c) = false).
  { unfold block_active. destruct (fa !! req_ip (call_req c)) as [e|]; [|reflexivity].
    cbn in Hnb. rewrite Hnb. reflexivity. }
  rewrite (guard_mismatch _ _ _ _ _ Hact Hmis).
  set (c0 := default 0 (count <$> fa !! req_ip (call_req c))) in *.
  set (e1 := record_failure (fa !! req_ip (call_req c)) (call_now_lock c)).
  assert (Hcount : count e1 = c0 + 1) by apply record_failure_count.
  destruct rest as [|c2 rest2].
  - cbn [run_guard fst snd length repeat List.last].
    split; [reflexivity|]. rewrite lookup_insert_eq. f_equal.
    change (N.of_nat 1) with 1.
    destruct (c0 + 1 =? 5) eqn:E.
    + apply N.eqb_eq in E.
      assert (Hb : blockedUntil e1 = Some (call_now_lock c + PASSWORD_LOCK_DURATION_MS)).
      { apply record_failure_locks. fold c0. unfold PASSWORD_MAX_FAILURES. lia. }
      destruct e1 as [n1 b1]. cbn in *. congruence.
    + apply N.eqb_neq in E.
      assert (Hb : blockedUntil e1 = None).
      { unfold e1. rewrite record_failure_below.
        - exact Hnb.
        - fold c0. unfold PASSWORD_MAX_FAILURES. cbn [length] in Hlen. lia. }
      destruct e1 as [n1 b1]. cbn in *. congruence.
  - assert (Hlt : c0 + 1 < 5) by (cbn [length] in Hlen; lia).
    assert (Hb : blockedUntil e1 = None).
    { unfold e1. rewrite record_failure_below; [exact Hnb|].
      fold c0. unfold PASSWORD_MAX_FAILURES. exact Hlt. }
    specialize (IH (<[req_ip (call_req c) := e1]> fa) (c0 + 1)).
    rewrite lookup_insert_eq in IH. cbn [fmap option_fmap option_map default from_option id
                                         mbind option_bind] in IH.
    specialize (IH Hcount Hb Hrest ltac:(discriminate)
                  ltac:(cbn [length] in *; lia)).
    destruct (run_guard pw (<[req_ip (call_req c) := e1]> fa) (c2 :: rest2))
      as [outs fa2].
    cbn [fst snd] in *. destruct IH as [IH1 IH2].
    split; [cbn [length repeat]; rewrite IH1; reflexivity|].
    rewrite IH2. f_equal.
    replace (c0 + 1 + N.of_nat (length (c2 :: rest2)))
      with (c0 + N.of_nat (length (c :: c2 :: rest2)))
      by (cbn [length]; lia).
    reflexivity.
Qed.

Lemma guard_correct_on_entry
    (pw : jsstring) (fa : gmap jsstring Entry) (req : Request)
    (now now_lock until : N) (e : Entry) :
  pw <> [] ->
  fa !! req_ip req = Some e ->
  blockedUntil e = Some until ->
  provided req = pw ->
  requirePasswordForRequest pw fa req now now_lock
  = if now <? until then (Blocked, fa) else (Allowed, delete (req_ip req) fa).
Proof.
  intros Hpw He Hu Hp.
  destruct (now <? until) eqn:E.
  - apply N.ltb_lt in E. apply guard_blocked. rewrite He.
    eapply block_active_window; eauto.
  - apply N.ltb_ge in E. apply guard_match.
    + rewrite He. eapply block_active_expired; eauto.
    + apply mismatch_correct; assumption.
Qed.

(** X5. A lock runs out by the clock alone. For a client whose entry has
    [blockedUntil] set, a call with the right credential is answered
    [Blocked], the map unchanged, as long as the clock is before
    [blockedUntil]; from that time on it is answered [Allowed] and the entry
    is deleted, whatever its count was. *)
Theorem guard_lock_runs_out
    (pw : jsstring) (fa : gmap jsstring Entry) (req : Request)
    (now now_lock until : N) (e : Entry) :
  pw <> [] ->
  fa !! req_ip req = Some e ->
  blockedUntil e = Some until ->
  provided req = pw ->
  (now < until ->
     requirePasswordForRequest pw fa req now now_lock = (Blocked, fa))
  /\ (until <= now ->
      requirePasswordForRequest pw fa req now now_lock
      = (Allowed, delete (req_ip req) fa)).
Proof.
  intros Hpw He Hu Hp.
  rewrite (guard_correct_on_entry pw fa req now now_lock until e Hpw He Hu Hp).
  split; intros Ht.
  - apply N.ltb_lt in Ht. rewrite Ht. reflexivity.
  - apply N.ltb_ge in Ht. rewrite Ht. reflexivity.
Qed.

Lemma guard_lock_runs_out_witness :
  let fa : gmap jsstring Entry :=
    {[ str "10.0.0.7" := {| count := 7; blockedUntil := Some 3601000 |} ]} in
  requirePasswordForRequest (str "pw") fa
    (key_request (str "10.0.0.7") (Some (str "pw"))) 3601000 3601000
  = (Allowed, ∅).
Proof.
  intros fa.
  refine (proj2 (guard_lock_runs_out (str "pw") fa
                   (key_request (str "10.0.0.7") (Some (str "pw")))
                   3601000 3601000 3601000
                   {| count := 7; blockedUntil := Some 3601000 |} _ _ _ _) _);
    [discriminate | reflexivity | reflexivity | reflexivity | lia].
Defined.

(** X6. The threshold is exactly five. For a client without entry, a run of
    [n <= 5] calls with a wrong credential is answered [Denied] every time
    and leaves an entry with count [n]; [blockedUntil] is absent while
    [n < 5] and is the clock of the fifth call plus the lock duration when
    [n = 5]. After the fifth, a call with the right credential is answered
    [Blocked] before that time and [Allowed] from it on. *)
Theorem guard_lockout_after_five
    (pw ip : jsstring) (fa : gmap jsstring Entry)
    (calls : list Call) (lastc : Call) :
  fa !! ip = None ->
  wrong_calls pw ip (calls ++ [lastc]) ->
  (length calls < 5)%nat ->
  let n := S (length calls) in
  let res := run_guard pw fa (calls ++ [lastc]) in
  let until := call_now_lock lastc + PASSWORD_LOCK_DURATION_MS in
  fst res = repeat Denied n
  /\ snd res !! ip
     = Some {| count := N.of_nat n;
               blockedUntil := if (n =? 5)%nat then Some until else None |}
  /\ (n = 5%nat -> pw <> [] ->
      forall (req : Request) (now now_lock : N),
        req_ip req = ip -> provided req = pw ->
        requirePasswordForRequest pw (snd res) req now now_lock
        = if now <? until then (Blocked, snd res)
          else (Allowed, delete ip (snd res))).
Proof.
  intros Hnone Hwrong Hlen n res until.
  destruct (wrong_calls_run pw ip (calls ++ [lastc]) fa 0) as [Houts Hentry].
  - rewrite Hnone. reflexivity.
  - rewrite Hnone. reflexivity.
  - exact Hwrong.
  - destruct calls; discriminate.
  - rewrite length_app. cbn [length]. unfold PASSWORD_MAX_FAILURES. lia.
  - rewrite length_app in Houts, Hentry. cbn [length] in Houts, Hentry.
    rewrite List.last_last in Hentry.
    replace (length calls + 1)%nat with n in Houts, Hentry by (unfold n; lia).
    rewrite N.add_0_l in Hentry.
    assert (Hflag : (N.of_nat n =? PASSWORD_MAX_FAILURES) = (n =? 5)%nat).
    { unfold PASSWORD_MAX_FAILURES.
      destruct (n =? 5)%nat eqn:E.
      - apply Nat.eqb_eq in E. rewrite E. reflexivity.
      - apply Nat.eqb_neq in E. apply N.eqb_neq. lia. }
    rewrite Hflag in Hentry.
    split; [exact Houts|]. split; [exact Hentry|].
    intros Hn Hpw req now now_lock Hip Hp. subst ip.
    eapply guard_correct_on_entry; [exact Hpw | exact Hentry | | exact Hp].
    cbn [blockedUntil]. rewrite Hn. reflexivity.
Qed.

Lemma guard_lockout_after_five_witness :
  let wrong := {| call_req := key_request (str "10.0.0.7") (Some (str "wrong"));
                  call_now := 1000; call_now_lock := 1000 |} in
  fst (run_guard (str "pw") ∅ (repeat wrong 4 ++ [wrong])) = repeat Denied 5.
Proof.
  intros wrong.
  refine (proj1 (guard_lockout_after_five (str "pw") (str "10.0.0.7") ∅
                   (repeat wrong 4) wrong _ _ _)).
  - reflexivity.
  - repeat constructor.
  - cbn. lia.
Defined.

(* ===================================================================== *)
(** * Further properties of the name sanitizer *)
(* ===================================================================== *)

Lemma is_space_not_safe (c : N) : is_space c = true -> is_safe c = false.
Proof.
  intros Hs. destruct (is_safe c) eqn:E; [|reflexivity].
  rewrite (is_safe_not_space c E) in Hs. discriminate.
Qed.

Lemma is_space_not_slash (c : N) : is_space c = true -> is_slash c = false.
Proof.
  intros Hs. unfold is_slash. apply N.eqb_neq. intros ->. discriminate Hs.
Qed.

Lemma replace_spaces_safe_app (pre rest : jsstring) :
  Forall (fun c => is_safe c = true) pre ->
  replace_spaces false (pre ++ rest) = pre ++ replace_spaces false rest.
Proof.
  induction 1 as [|c t Hc _ IH]; cbn [app replace_spaces]; [reflexivity|].
  rewrite (is_safe_not_space c Hc), IH. reflexivity.
Qed.

Lemma replace_spaces_run (ws rest : jsstring) :
  Forall (fun c => is_space c = true) ws ->
  Forall (fun c => is_safe c = true) rest ->
  replace_spaces true (ws ++ rest) = rest.
Proof.
  intros Hws Hrest. induction Hws as [|c t Hc _ IH]; cbn [app replace_spaces].
  - apply replace_spaces_safe. exact Hrest.
  - rewrite Hc. exact IH.
Qed.

(** X7. A run of white space inside a name becomes one underscore: for [pre] and
    [post] made of the characters that are kept and a non-empty run [ws] of
    white space (of the class [\s], the no-break space and the Unicode
    spaces included), the name [pre ws post] is sanitized to
    [pre _ post]. *)
Theorem sanitize_space_run (pre ws post : jsstring) :
  Forall (fun c => is_safe c = true) pre ->
  Forall (fun c => is_space c = true) ws ->
  ws <> [] ->
  Forall (fun c => is_safe c = true) post ->
  sanitizeFileName (pre ++ ws ++ post) = pre ++ 95 :: post.
Proof.
  intros Hpre Hws Hne Hpost. unfold sanitizeFileName.
  rewrite basename_no_slash.
  2:{ repeat apply Forall_app_2.
      - eapply List.Forall_impl; [exact is_safe_not_slash | exact Hpre].
      - eapply List.Forall_impl; [exact is_space_not_slash | exact Hws].
      - eapply List.Forall_impl; [exact is_safe_not_slash | exact Hpost]. }
  rewrite replace_spaces_safe_app by exact Hpre.
  destruct ws as [|w ws']; [congruence|].
  inversion Hws as [|? ? Hw Hws']; subst.
  cbn [app replace_spaces]. rewrite Hw.
  rewrite replace_spaces_run by assumption.
  rewrite filter_safe_id.
  - destruct pre; reflexivity.
  - apply Forall_app_2; [exact Hpre | constructor; [reflexivity | exact Hpost]].
Qed.

Lemma sanitize_space_run_witness :
  sanitizeFileName (str "my" ++ [32; 160; 9] ++ str "cat.png") = str "my_cat.png".
Proof.
  refine (sanitize_space_run (str "my") [32; 160; 9] (str "cat.png") _ _ _ _);
    [repeat constructor | repeat constructor | discriminate | repeat constructor].
Defined.

Lemma filter_replace_empty (s : jsstring) :
  forall in_run : bool,
    List.filter is_safe (replace_spaces in_run s) = [] ->
    Forall (fun c => is_safe c = false) s
    /\ (in_run = false -> Forall (fun c => is_space c = false) s).
Proof.
  induction s as [|c t IH]; intros in_run H; [split; constructor|].
  cbn [replace_spaces] in H. destruct (is_space c) eqn:Es.
  - destruct in_run.
    + destruct (IH true H) as [H1 _]. split; [|discriminate].
      constructor; [apply is_space_not_safe; exact Es | exact H1].
    + cbn in H. discriminate.
  - cbn [List.filter] in H. destruct (is_safe c) eqn:Ec; [discriminate|].
    destruct (IH false H) as [H1 H2]. split.
    + constructor; assumption.
    + intros _. constructor; [exact Es | apply H2; reflexivity].
Qed.

Lemma replace_spaces_none (s : jsstring) :
  Forall (fun c => is_space c = false) s ->
  forall in_run, replace_spaces in_run s = s.
Proof.
  induction 1 as [|c t Hc _ IH]; intros in_run; cbn [replace_spaces];
    [reflexivity|].
  rewrite Hc. f_equal. apply IH.
Qed.

Lemma filter_safe_none (s : jsstring) :
  Forall (fun c => is_safe c = false) s -> List.filter is_safe s = [].
Proof.
  induction 1 as [|c t Hc _ IH]; cbn [List.filter]; [reflexivity|].
  rewrite Hc. exact IH.
Qed.

(** X8. When the fallback is taken. The name ["file"] stands in exactly when the
    base name holds no character of [[a-zA-Z0-9_.-]] and no white space (a
    name of slashes only, or of letters outside ASCII); in every other case
    the result is the base name with its white space replaced and its other
    characters removed, and that is not empty. *)
Theorem sanitize_fallback_iff (x : jsstring) :
  let kept := List.filter is_safe (replace_spaces false (basename x)) in
  (kept = []
   <-> Forall (fun c => is_safe c = false /\ is_space c = false) (basename x))
  /\ (kept = [] -> sanitizeFileName x = str "file")
  /\ (kept <> [] -> sanitizeFileName x = kept).
Proof.
  intros kept. split; [split|split].
  - intros H. destruct (filter_replace_empty _ false H) as [H1 H2].
    specialize (H2 eq_refl).
    rewrite List.Forall_forall in *. intros c Hc. split; auto.
  - intros H. unfold kept.
    rewrite replace_spaces_none.
    + apply filter_safe_none. eapply List.Forall_impl; [|exact H].
      intros c Hc. apply Hc.
    + eapply List.Forall_impl; [|exact H]. intros c Hc. apply Hc.
  - intros H. unfold sanitizeFileName. fold kept. rewrite H. reflexivity.
  - intros H. unfold sanitizeFileName. fold kept.
    destruct kept; [congruence | reflexivity].
Qed.

Example sanitize_fallback_samples :
  sanitizeFileName (str "///") = str "file"
  /\ sanitizeFileName [1085; 1077; 1090] = str "file"
  /\ sanitizeFileName (str "a/b/") = str "b"
  /\ sanitizeFileName (str "..") = str "..".
Proof. repeat split. Qed.

(** X9. [path.basename] as the routes use it: the result holds no slash;
    slashes at the end of the path are ignored; what comes before the last
    slash inside the path is dropped; and the base name of a base name is
    itself. *)
Theorem basename_facts (p : jsstring) :
  Forall (fun c => c <> 47) (basename p)
  /\ basename (p ++ [47]) = basename p
  /\ basename (basename p) = basename p
  /\ (forall dir : jsstring,
        Forall (fun c => is_slash c = false) p -> p <> [] ->
        basename (dir ++ 47 :: p) = p).
Proof.
  split; [|split; [|split]].
  - eapply List.Forall_impl; [|apply basename_slash_free].
    intros c Hc. unfold is_slash in Hc. apply N.eqb_neq in Hc. exact Hc.
  - unfold basename. rewrite rev_app_distr. reflexivity.
  - apply basename_no_slash. apply basename_slash_free.
  - intros dir Hp Hne. unfold basename.
    rewrite rev_app_distr. cbn [rev]. rewrite <- app_assoc. cbn [app].
    assert (Hr : Forall (fun c => is_slash c = false) (rev p))
      by (apply List.Forall_rev; exact Hp).
    destruct (rev p) as [|c t] eqn:Ex.
    { exfalso. apply Hne. rewrite <- (rev_involutive p), Ex. reflexivity. }
    inversion Hr as [|? ? Hc Ht]; subst.
    cbn [app drop_while]. rewrite Hc. cbn [take_while]. rewrite Hc. cbn [negb].
    assert (Htw : take_while (fun c0 => negb (is_slash c0)) (t ++ 47 :: rev dir) = t).
    { clear -Ht. induction Ht as [|d t' Hd _ IH]; cbn; [reflexivity|].
      rewrite Hd. cbn. f_equal. exact IH. }
    rewrite Htw, <- Ex. apply rev_involutive.
Qed.

(* ===================================================================== *)
(** * Further properties of the pixel decoder *)
(* ===================================================================== *)

Lemma push_pixels_spec (data : list byte) (fuel : nat) :
  forall (i : nat) (acc : list Pixel),
    (length data - i <= fuel)%nat ->
    exists m : nat,
      push_pixels fuel data i acc
      = acc ++ map (fun j => pixel_at data (i + 4 * j)%nat) (seq 0 m)
      /\ (length data <= i + 4 * m)%nat
      /\ (0 < m -> i + 4 * m < length data + 4)%nat
      /\ (m = 0%nat -> length data <= i)%nat.
Proof.
  induction fuel as [|f IH]; intros i acc Hfuel; cbn [push_pixels].
  - exists 0%nat. cbn. rewrite app_nil_r. repeat split; lia.
  - destruct (i <? length data)%nat eqn:E.
    + apply Nat.ltb_lt in E.
      destruct (IH (i + 4)%nat (acc ++ [pixel_at data i]) ltac:(lia))
        as (m & Heq & H1 & H2 & H3).
      exists (S m). rewrite Heq. cbn [seq map].
      rewrite <- app_assoc. cbn [app]. rewrite Nat.mul_0_r, Nat.add_0_r.
      rewrite <- seq_shift, map_map.
      split; [|repeat split; lia].
      f_equal. f_equal. apply map_ext. intros j. f_equal. lia.
    + apply Nat.ltb_ge in E. exists 0%nat. cbn. rewrite app_nil_r.
      repeat split; lia.
Qed.

Lemma pixels_of_layout (data : list byte) :
  (length data <= 4 * length (pixels_of data) < length data + 4)%nat
  /\ (forall k : nat,
        (4 * k < length data)%nat ->
        pixels_of data !! k = Some (pixel_at data (4 * k))).
Proof.
  unfold pixels_of.
  destruct (push_pixels_spec data (length data) 0 [] ltac:(lia))
    as (m & Heq & H1 & H2 & H3).
  rewrite Heq. cbn [app]. split.
  - rewrite length_map, length_seq. destruct m; [specialize (H3 eq_refl)|]; lia.
  - intros k Hlt. rewrite list_lookup_fmap.
    rewrite lookup_seq_lt by (destruct m; [specialize (H3 eq_refl)|]; lia).
    reflexivity.
Qed.

Lemma pixel_at_full (data : list byte) (i : nat) :
  (i + 3 < length data)%nat ->
  exists cr cg cb ca : N,
    pixel_at data i = {| r := Some cr; g := Some cg; b := Some cb; a := Some ca |}
    /\ cr < 256 /\ cg < 256 /\ cb < 256 /\ ca < 256.
Proof.
  intros Hlt. unfold pixel_at.
  destruct (lookup_lt_is_Some_2 data i ltac:(lia)) as [x0 E0].
  destruct (lookup_lt_is_Some_2 data (i + 1)%nat ltac:(lia)) as [x1 E1].
  destruct (lookup_lt_is_Some_2 data (i + 2)%nat ltac:(lia)) as [x2 E2].
  destruct (lookup_lt_is_Some_2 data (i + 3)%nat ltac:(lia)) as [x3 E3].
  rewrite E0, E1, E2, E3. cbn [fmap option_fmap option_map].
  exists (Byte.to_N x0), (Byte.to_N x1), (Byte.to_N x2), (Byte.to_N x3).
  split; [reflexivity|].
  pose proof (Byte.to_N_bounded x0). pose proof (Byte.to_N_bounded x1).
  pose proof (Byte.to_N_bounded x2). pose proof (Byte.to_N_bounded x3).
  repeat split; lia.
Qed.

(** X10. The pixels of a sample array, whatever its length: there is one pixel
    for every started group of four samples, the pixel at position [k] is
    read at the indices [4k .. 4k+3], and when the group is complete its
    four components are defined and below 256. (A last, incomplete group
    gives a pixel with undefined components.) *)
Theorem pixels_of_groups (data : list byte) :
  (length data <= 4 * length (pixels_of data) < length data + 4)%nat
  /\ (forall k : nat,
        (4 * k < length data)%nat ->
        pixels_of data !! k = Some (pixel_at data (4 * k)))
  /\ (forall k : nat,
        (4 * k + 3 < length data)%nat ->
        exists cr cg cb ca : N,
          pixels_of data !! k
          = Some {| r := Some cr; g := Some cg; b := Some cb; a := Some ca |}
          /\ cr < 256 /\ cg < 256 /\ cb < 256 /\ ca < 256).
Proof.
  destruct (pixels_of_layout data) as [Hlen Hk].
  split; [exact Hlen|]. split; [exact Hk|].
  intros k Hlt. rewrite Hk by lia.
  destruct (pixel_at_full data (4 * k)%nat Hlt) as (cr & cg & cb & ca & -> & Hb).
  exists cr, cg, cb, ca. split; [reflexivity | exact Hb].
Qed.

Lemma signatures_exclusive (buf : list byte) :
  firstn 8 buf = PNG_MAGIC -> firstn 3 buf <> JPEG_MAGIC3.
Proof.
  intros H8 H3.
  destruct buf as [|x0 rest]; [discriminate|].
  cbn in H8, H3. injection H8 as -> _. discriminate.
Qed.

Lemma decode_by_png
    (PNG_sync_read jpeg_decode : list byte -> jsstring + Bitmap.t)
    (buf : list byte) :
  firstn 8 buf = PNG_MAGIC ->
  imageBufferToPixelJSON PNG_sync_read jpeg_decode buf
  = match PNG_sync_read buf with
    | inl message => inl (DecodeFailure message)
    | inr bm => inr {| width := Bitmap.width bm; height := Bitmap.height bm;
                       pixels := pixels_of (Bitmap.data bm) |}
    end.
Proof.
  intros H. apply isPNG_iff in H. unfold imageBufferToPixelJSON.
  rewrite H. cbn [negb andb]. reflexivity.
Qed.

Lemma decode_by_jpeg
    (PNG_sync_read jpeg_decode : list byte -> jsstring + Bitmap.t)
    (buf : list byte) :
  firstn 3 buf = JPEG_MAGIC3 ->
  imageBufferToPixelJSON PNG_sync_read jpeg_decode buf
  = match jpeg_decode buf with
    | inl message => inl (DecodeFailure message)
    | inr bm => inr {| width := Bitmap.width bm; height := Bitmap.height bm;
                       pixels := pixels_of (Bitmap.data bm) |}
    end.
Proof.
  intros H.
  assert (Hn : str_eqb (toString_hex buf 8) (str "89504e470d0a1a0a") = false).
  { apply not_true_is_false. rewrite isPNG_iff. intros H8.
    exact (signatures_exclusive buf H8 H). }
  apply isJPEG3_iff in H. unfold imageBufferToPixelJSON.
  rewrite Hn, H. cbn [negb andb]. reflexivity.
Qed.

(** X11. How [imageBufferToPixelJSON] chooses its reader. A buffer with the PNG
    signature goes to the PNG reader and to nothing else; a buffer that
    starts with [FF D8 FF] goes to the JPEG reader and to nothing else; no
    buffer has both signatures; an error of the reader comes back with the
    reader's message; and the function fails with [UnsupportedFormat] exactly
    when the buffer has neither signature. *)
Theorem decode_dispatch
    (PNG_sync_read jpeg_decode : list byte -> jsstring + Bitmap.t)
    (buf : list byte) :
  let result_of (read : jsstring + Bitmap.t) : DecodeError + PixelImage :=
    match read with
    | inl message => inl (DecodeFailure message)
    | inr bm => inr {| width := Bitmap.width bm; height := Bitmap.height bm;
                       pixels := pixels_of (Bitmap.data bm) |}
    end in
  (firstn 8 buf = PNG_MAGIC ->
     imageBufferToPixelJSON PNG_sync_read jpeg_decode buf
     = result_of (PNG_sync_read buf))
  /\ (firstn 3 buf = JPEG_MAGIC3 ->
      imageBufferToPixelJSON PNG_sync_read jpeg_decode buf
      = result_of (jpeg_decode buf))
  /\ ~ (firstn 8 buf = PNG_MAGIC /\ firstn 3 buf = JPEG_MAGIC3)
  /\ (imageBufferToPixelJSON PNG_sync_read jpeg_decode buf = inl UnsupportedFormat
      <-> firstn 8 buf <> PNG_MAGIC /\ firstn 3 buf <> JPEG_MAGIC3).
Proof.
  intros result_of.
  split; [apply decode_by_png|]. split; [apply decode_by_jpeg|].
  split; [intros [H8 H3]; exact (signatures_exclusive buf H8 H3)|].
  split.
  - intros Hres. split; intros Hsig.
    + rewrite (decode_by_png _ _ _ Hsig) in Hres.
      destruct (PNG_sync_read buf); discriminate.
    + rewrite (decode_by_jpeg _ _ _ Hsig) in Hres.
      destruct (jpeg_decode buf); discriminate.
  - intros [H8 H3]. unfold imageBufferToPixelJSON.
    rewrite (not_true_is_false _ (fun E => H8 (proj1 (isPNG_iff buf) E))).
    rewrite (not_true_is_false _ (fun E => H3 (proj1 (isJPEG3_iff buf) E))).
    reflexivity.
Qed.

Lemma decode_dispatch_witness :
  imageBufferToPixelJSON sample_PNG_sync_read grey_jpeg_decode jfif_head
  = inr {| width := 1; height := 1;
           pixels := [ {| r := Some 128; g := Some 128; b := Some 128; a := Some 255 |} ] |}.
Proof.
  exact (proj1 (proj2 (decode_dispatch sample_PNG_sync_read grey_jpeg_decode
                         jfif_head)) eq_refl).
Defined.

(** X12. The JPEG side of the pixel count. Let the JPEG reader return four
    samples per pixel, as jpeg-js does. Then for a buffer that starts with
    [FF D8 FF], [imageBufferToPixelJSON] returns an image with exactly
    [width * height] pixels, each with its four components defined, or
    fails with the error of the reader. *)
Theorem decode_jpeg_pixel_count
    (PNG_sync_read jpeg_decode : list byte -> jsstring + Bitmap.t)
    (buf : list byte) :
  (forall (input : list byte) (raw : Bitmap.t),
      jpeg_decode input = inr raw ->
      N.of_nat (length (Bitmap.data raw)) = 4 * (Bitmap.width raw * Bitmap.height raw)) ->
  firstn 3 buf = JPEG_MAGIC3 ->
  (exists image : PixelImage,
     imageBufferToPixelJSON PNG_sync_read jpeg_decode buf = inr image
     /\ N.of_nat (length (pixels image)) = width image * height image
     /\ Forall (fun p => is_Some (r p) /\ is_Some (g p) /\ is_Some (b p) /\ is_Some (a p))
          (pixels image))
  \/ (exists message : jsstring,
        jpeg_decode buf = inl message
        /\ imageBufferToPixelJSON PNG_sync_read jpeg_decode buf
           = inl (DecodeFailure message)).
Proof.
  intros Hlib Hsig.
  rewrite (decode_by_jpeg PNG_sync_read jpeg_decode buf Hsig).
  destruct (jpeg_decode buf) as [message|raw] eqn:Eread.
  - right. exists message. split; reflexivity.
  - left. eexists. split; [reflexivity|]. cbn [pixels width height].
    specialize (Hlib buf raw Eread).
    set (m := N.to_nat (Bitmap.width raw * Bitmap.height raw)).
    assert (Hlen : length (Bitmap.data raw) = (4 * m)%nat) by lia.
    assert (Hm : length (pixels_of (Bitmap.data raw)) = m)
      by (apply pixels_of_length; exact Hlen).
    split; [lia|].
    apply Forall_lookup_2. intros k p Hp.
    assert (Hk : (k < m)%nat).
    { rewrite <- Hm. apply lookup_lt_is_Some_1. eauto. }
    rewrite (proj2 (pixels_of_layout (Bitmap.data raw)) k) in Hp by lia.
    destruct (pixel_at_full (Bitmap.data raw) (4 * k)%nat ltac:(lia))
      as (cr & cg & cb & ca & Hpix & _).
    rewrite Hpix in Hp. injection Hp as <-. cbn. eauto.
Qed.

Lemma grey_jpeg_decode_samples (input : list byte) (raw : Bitmap.t) :
  grey_jpeg_decode input = inr raw ->
  N.of_nat (length (Bitmap.data raw)) = 4 * (Bitmap.width raw * Bitmap.height raw).
Proof. intros Hraw. injection Hraw as <-. reflexivity. Qed.

Lemma decode_jpeg_pixel_count_witness :
  (exists image : PixelImage,
     imageBufferToPixelJSON sample_PNG_sync_read grey_jpeg_decode jfif_head = inr image
     /\ N.of_nat (length (pixels image)) = width image * height image
     /\ Forall (fun p => is_Some (r p) /\ is_Some (g p) /\ is_Some (b p) /\ is_Some (a p))
          (pixels image))
  \/ (exists message : jsstring,
        grey_jpeg_decode jfif_head = inl message
        /\ imageBufferToPixelJSON sample_PNG_sync_read grey_jpeg_decode jfif_head
           = inl (DecodeFailure message)).
Proof.
  exact (decode_jpeg_pixel_count sample_PNG_sync_read grey_jpeg_decode jfif_head
           grey_jpeg_decode_samples eq_refl).
Defined.

(* ===================================================================== *)
(** * Further properties of the routes *)
(* ===================================================================== *)

(** X13. A request that the middleware does not let through touches nothing: on
    [/upload], [/uploadJson] and [/getImage/:name] alike the response is the
    403 or 429 of the middleware, no call of fs-extra is made, the files are
    as before, and the only change of state is the middleware's own. *)
Theorem rejected_request_touches_nothing
    (pw : jsstring)
    (PNG_sync_read jpeg_decode : list byte -> jsstring + Bitmap.t)
    (from_base64 : jsstring -> list byte) (toISOString : N -> jsstring)
    (dir : jsstring) (st : State) (req : Request) (clock : Clock) :
  let verdict := requirePasswordForRequest pw (failedAttempts st) req
                   (t_check clock) (t_lock clock) in
  fst verdict <> Allowed ->
  forall reply : Reply,
    reply = post_upload pw toISOString dir st req clock
    \/ reply = post_uploadJson pw PNG_sync_read jpeg_decode from_base64
                 toISOString dir st req clock
    \/ reply = get_getImage pw dir st req clock ->
    calls reply = []
    /\ after reply = {| failedAttempts := snd verdict; files := files st |}
    /\ ((fst verdict = Denied
         /\ response reply
            = {| status := 403; body := Text (str "Forbidden: invalid password.") |})
        \/ (fst verdict = Blocked
            /\ response reply
               = {| status := 429;
                    body := Text (str "Too many failed password attempts. Try later.") |})).
Proof.
  intros verdict Hrej reply Hreply.
  assert (Hg : forall handler : State -> Reply,
             reply = guarded pw st req clock handler ->
             calls reply = []
             /\ after reply = {| failedAttempts := snd verdict; files := files st |}
             /\ ((fst verdict = Denied
                  /\ response reply
                     = {| status := 403; body := Text (str "Forbidden: invalid password.") |})
                 \/ (fst verdict = Blocked
                     /\ response reply
                        = {| status := 429;
                             body := Text (str "Too many failed password attempts. Try later.") |}))).
  { intros handler ->. unfold guarded. fold verdict.
    assert (Hcases : (fst verdict = Blocked /\ snd verdict = failedAttempts st)
                     \/ fst verdict = Denied \/ fst verdict = Allowed).
    { subst verdict.
      destruct (block_active (failedAttempts st !! req_ip req) (t_check clock)) eqn:Hact.
      - rewrite guard_blocked by exact Hact. left. split; reflexivity.
      - destruct (mismatch pw req) eqn:Hmis.
        + rewrite guard_mismatch by assumption. right. left. reflexivity.
        + rewrite guard_match by assumption. right. right. reflexivity. }
    destruct verdict as [out fa]. cbn [fst snd] in *.
    destruct Hcases as [[-> _]|[->| ->]]; [| |congruence]; cbn;
      (split; [reflexivity|]); (split; [reflexivity|]); [right | left];
      split; reflexivity. }
  destruct Hreply as [H|[H|H]]; eapply Hg; exact H.
Qed.

Lemma rejected_request_touches_nothing_witness :
  let req := form_request (str "10.0.0.7") (str "wrong")
               (Some {| buffer := red2x2_png; originalname := Some (str "red.png") |}) in
  calls (post_upload (str "pw") sample_toISOString (str "/app") sample_state req
           sample_clock) = [].
Proof.
  intros req.
  refine (proj1 (rejected_request_touches_nothing (str "pw") sample_PNG_sync_read
                   sample_jpeg_decode sample_Buffer_from_base64 sample_toISOString
                   (str "/app") sample_state req sample_clock _ _ (or_introl eq_refl))).
  vm_compute. discriminate.
Defined.

Lemma file_name_plain (clock : Clock) (name : jsstring) :
  plain_segment (file_name clock (sanitizeFileName name)).
Proof.
  assert (Hlen : (6 <= length (file_name clock (sanitizeFileName name)))%nat).
  { unfold file_name. rewrite !length_app.
    change (length (str "_")) with 1%nat. change (length (str ".json")) with 5%nat.
    lia. }
  repeat split.
  - intros E. rewrite E in Hlen. cbn in Hlen. lia.
  - intros E. rewrite E in Hlen. cbn in Hlen. lia.
  - intros E. rewrite E in Hlen. cbn in Hlen. lia.
  - eapply List.Forall_impl; [exact is_safe_not_slash | apply file_name_safe].
Qed.

Lemma writeJson_frame (fs fs' : gmap jsstring Node) (path : jsstring) (doc : JSON) :
  writeJson fs path doc = inr fs' ->
  fs' = <[path := JsonFile doc]> fs
  /\ forall p : jsstring, p <> path -> fs' !! p = fs !! p.
Proof.
  unfold writeJson. intros H.
  assert (E : fs' = <[path := JsonFile doc]> fs).
  { destruct (fs !! path) as [[| |]|]; congruence. }
  split; [exact E|]. intros p Hp. rewrite E. apply lookup_insert_ne. congruence.
Qed.

Lemma upload_target
    (pw : jsstring)
    (PNG_sync_read jpeg_decode : list byte -> jsstring + Bitmap.t)
    (from_base64 : jsstring -> list byte) (toISOString : N -> jsstring)
    (dir : jsstring) (segs : list jsstring)
    (st : State) (req : Request) (clock : Clock) :
  STORAGE_DIR dir = 47 :: join_slash segs ->
  Forall plain_segment segs -> segs <> [] ->
  forall reply : Reply,
    reply = post_upload pw toISOString dir st req clock
    \/ reply = post_uploadJson pw PNG_sync_read jpeg_decode from_base64
                 toISOString dir st req clock ->
    (calls reply = [] /\ files (after reply) = files st)
    \/ exists name : jsstring,
         calls reply
         = [WriteJson (STORAGE_DIR dir ++ 47 :: file_name clock (sanitizeFileName name))]
         /\ forall p : jsstring,
              p <> STORAGE_DIR dir ++ 47 :: file_name clock (sanitizeFileName name) ->
              files (after reply) !! p = files st !! p.
Proof.
  intros Hdir Hplain Hne reply Hreply.
  assert (Hjoin : forall name : jsstring,
             path_join (STORAGE_DIR dir) (file_name clock (sanitizeFileName name))
             = STORAGE_DIR dir ++ 47 :: file_name clock (sanitizeFileName name)).
  { intros name. eapply path_join_child; eauto. apply file_name_plain. }
  assert (Hwrite : forall (fs : gmap jsstring Node) (name : jsstring) (doc : JSON)
                     (fail : jsstring -> Reply) (ok : gmap jsstring Node -> Reply),
             (forall m, calls (fail m)
                        = [WriteJson (STORAGE_DIR dir ++ 47 :: file_name clock (sanitizeFileName name))]
                        /\ files (after (fail m)) = fs) ->
             (forall fs', calls (ok fs')
                          = [WriteJson (STORAGE_DIR dir ++ 47 :: file_name clock (sanitizeFileName name))]
                          /\ files (after (ok fs')) = fs') ->
             let r := match writeJson fs (STORAGE_DIR dir ++ 47 :: file_name clock (sanitizeFileName name)) doc with
                      | inl m => fail m | inr fs' => ok fs' end in
             exists name' : jsstring,
               calls r
               = [WriteJson (STORAGE_DIR dir ++ 47 :: file_name clock (sanitizeFileName name'))]
               /\ forall p : jsstring,
                    p <> STORAGE_DIR dir ++ 47 :: file_name clock (sanitizeFileName name') ->
                    files (after r) !! p = fs !! p).
  { intros fs name doc fail ok Hfail Hok r. subst r. exists name.
    destruct (writeJson fs _ doc) as [m|fs'] eqn:Ew.
    - destruct (Hfail m) as [Hc Hf]. split; [exact Hc|]. intros p _.
      rewrite Hf. reflexivity.
    - destruct (Hok fs') as [Hc Hf]. split; [exact Hc|]. intros p Hp.
      rewrite Hf. exact (proj2 (writeJson_frame _ _ _ _ Ew) p Hp). }
  destruct Hreply as [-> | ->].
  - unfold post_upload, guarded.
    destruct (requirePasswordForRequest pw (failedAttempts st) req
                (t_check clock) (t_lock clock)) as [[code text|] fa];
      [left; split; reflexivity|].
    destruct (req_file req) as [file|]; [|left; split; reflexivity].
    right. cbn [files failedAttempts]. rewrite Hjoin.
    apply Hwrite; intros; split; reflexivity.
  - unfold post_uploadJson, guarded.
    destruct (requirePasswordForRequest pw (failedAttempts st) req
                (t_check clock) (t_lock clock)) as [[code text|] fa];
      [left; split; reflexivity|].
    destruct (negb (truthy (body_imageBase64 req)) && negb (truthy (body_image req)));
      [left; split; reflexivity|].
    destruct (imageBufferToPixelJSON PNG_sync_read jpeg_decode _) as [err|result];
      [left; split; reflexivity|].
    right. cbn [files failedAttempts]. rewrite Hjoin.
    apply Hwrite; intros; split; reflexivity.
Qed.

(** X14. Where the upload routes write. Let the storage directory be a path of
    plain segments under the root. Then whatever the original name, the
    [name] field and the bytes of the request are, [/upload] and
    [/uploadJson] make at most one call of fs-extra: a [writeJson] of a
    child of the storage directory whose name holds only characters of
    [[a-zA-Z0-9_.-]]; every other path of the file system keeps what it
    held. *)
Theorem uploads_write_one_child_of_storage
    (pw : jsstring)
    (PNG_sync_read jpeg_decode : list byte -> jsstring + Bitmap.t)
    (from_base64 : jsstring -> list byte) (toISOString : N -> jsstring)
    (dir : jsstring) (segs : list jsstring)
    (st : State) (req : Request) (clock : Clock) :
  STORAGE_DIR dir = 47 :: join_slash segs ->
  Forall plain_segment segs -> segs <> [] ->
  forall reply : Reply,
    reply = post_upload pw toISOString dir st req clock
    \/ reply = post_uploadJson pw PNG_sync_read jpeg_decode from_base64
                 toISOString dir st req clock ->
    (calls reply = [] /\ files (after reply) = files st)
    \/ exists fileName : jsstring,
         Forall (fun c => is_safe c = true) fileName
         /\ calls reply = [WriteJson (STORAGE_DIR dir ++ 47 :: fileName)]
         /\ forall p : jsstring,
              p <> STORAGE_DIR dir ++ 47 :: fileName ->
              files (after reply) !! p = files st !! p.
Proof.
  intros Hdir Hplain Hne reply Hreply.
  destruct (upload_target pw PNG_sync_read jpeg_decode from_base64 toISOString
              dir segs st req clock Hdir Hplain Hne reply Hreply)
    as [Hnone | (name & Hcalls & Hframe)]; [left; exact Hnone|].
  right. exists (file_name clock (sanitizeFileName name)).
  split; [apply file_name_safe|]. split; assumption.
Qed.

Lemma uploads_write_one_child_of_storage_witness :
  let req := form_request (str "10.0.0.7") (str "pw")
               (Some {| buffer := red2x2_png;
                        originalname := Some (str "../../etc/passwd") |}) in
  let reply := post_upload (str "pw") sample_toISOString (str "/app") sample_state
                 req sample_clock in
  (calls reply = [] /\ files (after reply) = files sample_state)
  \/ exists fileName : jsstring,
       Forall (fun c => is_safe c = true) fileName
       /\ calls reply = [WriteJson (STORAGE_DIR (str "/app") ++ 47 :: fileName)]
       /\ forall p : jsstring,
            p <> STORAGE_DIR (str "/app") ++ 47 :: fileName ->
            files (after reply) !! p = files sample_state !! p.
Proof.
  intros req reply.
  refine (uploads_write_one_child_of_storage (str "pw") sample_PNG_sync_read
            sample_jpeg_decode sample_Buffer_from_base64 sample_toISOString
            (str "/app") [str "app"; str "storage"] sample_state req sample_clock
            _ _ _ reply (or_introl eq_refl));
    [reflexivity | | discriminate].
  repeat constructor; try discriminate.
Defined.









(** ** The form route keeps the file *)

Lemma base64_value_char (n : N) : n < 64 -> base64_value (base64_char n) = Some n.
Proof.
  intros H. destruct n as [|p]; [reflexivity|].
  do 6 (try destruct p as [p|p|]); try reflexivity; exfalso; lia.
Qed.

Lemma byte_of_to_N (x : byte) : byte_of (Byte.to_N x) = x.
Proof. unfold byte_of. rewrite Byte.of_to_N. reflexivity. Qed.

#[local] Ltac Zify.zify_post_hook ::= Z.to_euclidean_division_equations.

Lemma base64_group3 (x y z : byte) (rest : list N) :
  let n := Byte.to_N x in
  let m := Byte.to_N y in
  let k := Byte.to_N z in
  bytes_of_sextets (n / 4 :: (n mod 4) * 16 + m / 16
                    :: (m mod 16) * 4 + k / 64 :: k mod 64 :: rest)
  = x :: y :: z :: bytes_of_sextets rest.
Proof.
  intros n m k. cbn [bytes_of_sextets].
  pose proof (Byte.to_N_bounded x) as Hx. pose proof (Byte.to_N_bounded y) as Hy.
  pose proof (Byte.to_N_bounded z) as Hz. fold n m k in Hx, Hy, Hz.
  replace (n / 4 * 4 + (n mod 4 * 16 + m / 16) / 16) with n by lia.
  replace ((n mod 4 * 16 + m / 16) mod 16 * 16 + (m mod 16 * 4 + k / 64) / 4)
    with m by lia.
  replace ((m mod 16 * 4 + k / 64) mod 4 * 64 + k mod 64) with k by lia.
  unfold n, m, k. rewrite !byte_of_to_N. reflexivity.
Qed.

Lemma base64_round_trip_bounded (fuel : nat) :
  forall buf : list byte,
    (length buf <= fuel)%nat ->
    sample_Buffer_from_base64 (toString_base64 buf) = buf.
Proof.
  unfold sample_Buffer_from_base64.
  induction fuel as [f IH] using (well_founded_induction Wf_nat.lt_wf).
  intros buf Hlen.
  destruct buf as [|x [|y [|z rest]]].
  - reflexivity.
  - cbn [toString_base64 sextets].
    pose proof (Byte.to_N_bounded x) as Hx.
    rewrite !base64_value_char by lia.
    change (base64_value 61) with (@None N). cbn [N.eqb Pos.eqb bytes_of_sextets].
    replace (Byte.to_N x / 4 * 4 + Byte.to_N x mod 4 * 16 / 16) with (Byte.to_N x) by lia.
    rewrite byte_of_to_N. reflexivity.
  - cbn [toString_base64 sextets].
    pose proof (Byte.to_N_bounded x) as Hx. pose proof (Byte.to_N_bounded y) as Hy.
    rewrite !base64_value_char by lia.
    change (base64_value 61) with (@None N). cbn [N.eqb Pos.eqb bytes_of_sextets].
    replace (Byte.to_N x / 4 * 4 + (Byte.to_N x mod 4 * 16 + Byte.to_N y / 16) / 16)
      with (Byte.to_N x) by lia.
    replace ((Byte.to_N x mod 4 * 16 + Byte.to_N y / 16) mod 16 * 16
             + Byte.to_N y mod 16 * 4 / 4)
      with (Byte.to_N y) by lia.
    rewrite !byte_of_to_N. reflexivity.
  - cbn [toString_base64 sextets].
    pose proof (Byte.to_N_bounded x) as Hx. pose proof (Byte.to_N_bounded y) as Hy.
    pose proof (Byte.to_N_bounded z) as Hz.
    rewrite !base64_value_char by lia.
    rewrite base64_group3. do 3 f_equal.
    apply (IH (length rest)); [cbn [length] in Hlen; lia | lia].
Qed.

Lemma base64_length_bounded (fuel : nat) :
  forall buf : list byte,
    (length buf <= fuel)%nat ->
    length (toString_base64 buf) = (4 * ((length buf + 2) / 3))%nat.
Proof.
  induction fuel as [f IH] using (well_founded_induction Wf_nat.lt_wf).
  intros buf Hlen.
  destruct buf as [|x [|y [|z rest]]]; try reflexivity.
  cbn [toString_base64 length].
  rewrite (IH (length rest)) by (cbn [length] in Hlen; lia).
  replace (S (S (S (length rest))) + 2)%nat with (1 * 3 + (length rest + 2))%nat by lia.
  rewrite Nat.div_add_l by lia. lia.
Qed.

(** X16. The text that the form route stores is the whole file: the base64 text
    of a buffer has four characters for every started group of three bytes,
    reading it back (alphabet [A-Za-z0-9+/], [=] ends the text) gives the
    bytes of the buffer, and so two different files never get the same
    text. *)
Theorem base64_text_is_lossless (buf : list byte) :
  length (toString_base64 buf) = (4 * ((length buf + 2) / 3))%nat
  /\ sample_Buffer_from_base64 (toString_base64 buf) = buf
  /\ forall other : list byte,
       toString_base64 other = toString_base64 buf -> other = buf.
Proof.
  split; [apply (base64_length_bounded (length buf)); lia|].
  split; [apply (base64_round_trip_bounded (length buf)); lia|].
  intros other E.
  rewrite <- (base64_round_trip_bounded (length other) other) by lia.
  rewrite E. apply (base64_round_trip_bounded (length buf)). lia.
Qed.

(** X17. The form route, end to end. A request to [/upload] that passes the
    middleware and carries a file, with no directory in the way of the new
    file, is answered 200 with the new file name; the document stored under
    that name in the storage directory holds the file name, the original
    name (["upload"] when the form gave none), the time stamp and the bytes
    of the file in base64, and no [width], [height] or [pixels]; and
    [/getImage/:name] with that file name, by a request that passes the
    middleware, answers with that same document. *)
Theorem form_upload_round_trip
    (pw : jsstring) (toISOString : N -> jsstring) (dir : jsstring)
    (st : State) (req : Request) (clock : Clock) (file : File) :
  let originalName := default [] (js_or (originalname file) (Some (str "upload"))) in
  let fileName := file_name clock (sanitizeFileName originalName) in
  let filePath := path_join (STORAGE_DIR dir) fileName in
  let reply := post_upload pw toISOString dir st req clock in
  block_active (failedAttempts st !! req_ip req) (t_check clock) = false ->
  mismatch pw req = false ->
  req_file req = Some file ->
  files st !! filePath <> Some Dir ->
  response reply
  = {| status := 200;
       body := Text (str "<h3>Upload successful!</h3><p>File saved as: <code>"
                     ++ fileName ++ str "</code></p>") |}
  /\ calls reply = [WriteJson filePath]
  /\ failedAttempts (after reply) = delete (req_ip req) (failedAttempts st)
  /\ exists doc : JSON,
       files (after reply) = <[filePath := JsonFile doc]> (files st)
       /\ json_get (str "filename") doc = Some (JStr fileName)
       /\ json_get (str "original") doc = Some (JStr originalName)
       /\ json_get (str "uploadedAt") doc = Some (JStr (toISOString (t_stamp clock)))
       /\ json_get (str "imageBase64") doc = Some (JStr (toString_base64 (buffer file)))
       /\ json_get (str "width") doc = None
       /\ json_get (str "height") doc = None
       /\ json_get (str "pixels") doc = None
       /\ forall (guard : gmap jsstring Entry) (req2 : Request) (clock2 : Clock),
            params_name req2 = fileName ->
            block_active (guard !! req_ip req2) (t_check clock2) = false ->
            mismatch pw req2 = false ->
            response (get_getImage pw dir
                        {| failedAttempts := guard; files := files (after reply) |}
                        req2 clock2)
            = {| status := 200; body := Json doc |}.
Proof.
  intros originalName fileName filePath reply Hna Hok Hfile Hnodir.
  subst reply. unfold post_upload.
  rewrite guarded_pass by assumption. rewrite Hfile.
  fold originalName. fold fileName. fold filePath. cbn [files].
  rewrite writeJson_file by exact Hnodir.
  cbn [response after calls files failedAttempts].
  split; [reflexivity|]. split; [reflexivity|]. split; [reflexivity|].
  eexists. split; [reflexivity|].
  do 7 (split; [reflexivity|]).
  intros guard req2 clock2 Hname Hna2 Hok2.
  erewrite getImage_found; [reflexivity | exact Hna2 | exact Hok2 |].
  cbn [files]. rewrite Hname. unfold fileName at 1.
  rewrite basename_file_name. fold fileName. fold filePath.
  apply lookup_insert_eq.
Qed.

Lemma form_upload_round_trip_witness :
  let file := {| buffer := red2x2_png; originalname := Some (str "my red.png") |} in
  let req := form_request (str "10.0.0.7") (str "pw") (Some file) in
  calls (post_upload (str "pw") sample_toISOString (str "/app") sample_state req
           sample_clock)
  = [WriteJson (str "/app/storage/1700000000001_my_red.png.json")].
Proof.
  intros file req.
  refine (proj1 (proj2 (form_upload_round_trip (str "pw") sample_toISOString
                          (str "/app") sample_state req sample_clock file _ _ _ _)));
    [reflexivity | reflexivity | reflexivity | vm_compute; discriminate].
Defined.

(** ** Failures of the JSON route *)

(** X18. How [/uploadJson] fails once the middleware has let the request through.
    Without a non-empty [imageBase64] or [image] field the answer is 400;
    when the decoder fails the answer is 500 with the message of the error
    (["Server error"] for an empty message), be it the unsupported format or
    the error of the reader; in both cases no call of fs-extra is made and
    the files stay as they were. The field [image] stands in for an absent
    or empty [imageBase64]. *)
Theorem uploadJson_failures
    (pw : jsstring)
    (PNG_sync_read jpeg_decode : list byte -> jsstring + Bitmap.t)
    (from_base64 : jsstring -> list byte) (toISOString : N -> jsstring)
    (dir : jsstring) (st : State) (req : Request) (clock : Clock) :
  let reply := post_uploadJson pw PNG_sync_read jpeg_decode from_base64
                 toISOString dir st req clock in
  let st' := {| failedAttempts := delete (req_ip req) (failedAttempts st);
                files := files st |} in
  block_active (failedAttempts st !! req_ip req) (t_check clock) = false ->
  mismatch pw req = false ->
  (truthy (body_imageBase64 req) = false -> truthy (body_image req) = false ->
     reply = {| response := {| status := 400;
                               body := json_error (str "Missing imageBase64 field") |};
                after := st'; calls := [] |})
  /\ (forall err : DecodeError,
        truthy (js_or (body_imageBase64 req) (body_image req)) = true ->
        imageBufferToPixelJSON PNG_sync_read jpeg_decode
          (from_base64 (default [] (js_or (body_imageBase64 req) (body_image req))))
        = inl err ->
        reply = {| response :=
                     {| status := 500;
                        body := json_error (message_or (error_message err)
                                              (str "Server error")) |};
                   after := st'; calls := [] |})
  /\ (forall s : jsstring,
        truthy (body_imageBase64 req) = false -> body_image req = Some s ->
        default [] (js_or (body_imageBase64 req) (body_image req)) = s).
Proof.
  intros reply st' Hna Hok. subst reply. unfold post_uploadJson.
  rewrite guarded_pass by assumption. fold st'.
  split; [|split].
  - intros H1 H2. rewrite H1, H2. reflexivity.
  - intros err Himg Hdec. rewrite (image_field_present req Himg), Hdec.
    reflexivity.
  - intros s H1 H2. unfold js_or. rewrite H1, H2. reflexivity.
Qed.

Lemma uploadJson_failures_witness :
  let req := json_request (str "10.0.0.7") (str "pw") None None [] in
  post_uploadJson (str "pw") sample_PNG_sync_read sample_jpeg_decode
    sample_Buffer_from_base64 sample_toISOString (str "/app") sample_state req
    sample_clock
  = {| response := {| status := 400;
                      body := json_error (str "Missing imageBase64 field") |};
       after := sample_state; calls := [] |}.
Proof.
  intros req.
  exact (proj1 (uploadJson_failures (str "pw") sample_PNG_sync_read sample_jpeg_decode
                  sample_Buffer_from_base64 sample_toISOString (str "/app")
                  sample_state req sample_clock eq_refl eq_refl) eq_refl eq_refl).
Defined.

(** ** The record route *)

(** X19. What [/getImage/:name] answers once the middleware has let the request
    through. It looks at one path, the storage directory joined with the
    base name of the requested name: nothing there gives 404 after the one
    existence check; a JSON file gives 200 with its document; a directory or
    a file that is not JSON gives 500; and the files are never changed. *)
Theorem getImage_outcomes
    (pw dir : jsstring) (st : State) (req : Request) (clock : Clock) :
  let path := path_join (STORAGE_DIR dir) (basename (params_name req)) in
  let reply := get_getImage pw dir st req clock in
  block_active (failedAttempts st !! req_ip req) (t_check clock) = false ->
  mismatch pw req = false ->
  after reply = {| failedAttempts := delete (req_ip req) (failedAttempts st);
                   files := files st |}
  /\ response reply
     = match files st !! path with
       | None => {| status := 404; body := Text (str "Not found") |}
       | Some (JsonFile doc) => {| status := 200; body := Json doc |}
       | Some _ => {| status := 500; body := Text (str "Server error") |}
       end
  /\ calls reply
     = match files st !! path with
       | None => [PathExists path]
       | Some _ => [PathExists path; ReadJson path]
       end.
Proof.
  intros path reply Hna Hok. subst reply. unfold get_getImage.
  rewrite guarded_pass by assumption. cbn [files]. fold path.
  unfold pathExists, readJson.
  destruct (files st !! path) as [[|doc|]|] eqn:E.
  - rewrite bool_decide_eq_true_2 by eauto. repeat split.
  - rewrite bool_decide_eq_true_2 by eauto. repeat split.
  - rewrite bool_decide_eq_true_2 by eauto. repeat split.
  - rewrite bool_decide_eq_false_2 by (intros [? ?]; discriminate). repeat split.
Qed.

Lemma getImage_outcomes_witness :
  response (get_getImage (str "pw") (str "/app") sample_state
              (json_request (str "10.0.0.7") (str "pw") None None (str "nothing.json"))
              sample_clock)
  = {| status := 404; body := Text (str "Not found") |}.
Proof.
  exact (proj1 (proj2 (getImage_outcomes (str "pw") (str "/app") sample_state
                         (json_request (str "10.0.0.7") (str "pw") None None
                            (str "nothing.json"))
                         sample_clock eq_refl eq_refl))).
Defined.

Lemma split_join_slash_free (segs : list jsstring) :
  Forall (Forall (fun c => is_slash c = false)) segs -> segs <> [] ->
  split_slash (join_slash segs) = segs.
Proof.
  induction 1 as [|seg rest Hseg Hrest IH]; intros Hne; [congruence|].
  destruct rest as [|seg2 rest]; cbn [join_slash].
  - apply split_slash_segment. exact Hseg.
  - rewrite split_slash_app by exact Hseg. f_equal. apply IH. discriminate.
Qed.

Lemma normalize_plain_prefix (allow : bool) (segs : list jsstring) :
  Forall plain_segment segs ->
  forall (stack rest : list jsstring),
    normalize_segments allow stack (segs ++ rest)
    = normalize_segments allow (rev segs ++ stack) rest.
Proof.
  induction 1 as [|seg more Hseg _ IH]; intros stack rest; [reflexivity|].
  cbn [app normalize_segments].
  destruct Hseg as (H1 & H2 & H3 & _). unfold str_eqb.
  rewrite !bool_decide_eq_false_2 by assumption. cbn [orb].
  rewrite IH. cbn [rev]. rewrite <- app_assoc. reflexivity.
Qed.

Lemma plain_slash_free (segs : list jsstring) :
  Forall plain_segment segs -> Forall (Forall (fun c => is_slash c = false)) segs.
Proof.
  intros H. eapply List.Forall_impl; [|exact H]. intros seg Hseg. apply Hseg.
Qed.

Lemma last_slash_free (seg : jsstring) :
  seg <> [] -> Forall (fun c => is_slash c = false) seg ->
  is_slash (List.last seg 0) = false.
Proof.
  intros Hne Hfree.
  destruct (exists_last Hne) as (l' & x & ->).
  rewrite last_last. apply Forall_app in Hfree. destruct Hfree as [_ Hx].
  inversion Hx; assumption.
Qed.

(** Joining one more segment without slash, be it [.] or [..], to a
    directory of plain segments. *)
Lemma path_join_segment (segs : list jsstring) (seg : jsstring) :
  Forall plain_segment segs -> segs <> [] ->
  seg <> [] -> Forall (fun c => is_slash c = false) seg ->
  path_join (47 :: join_slash segs) seg
  = match join_slash (normalize_segments false (rev segs) [seg]) with
    | [] => str "/"
    | c :: body => 47 :: c :: body
    end.
Proof.
  intros Hplain Hne Hsne Hfree.
  pose proof (last_slash_free seg Hsne Hfree) as Hlastseg.
  unfold path_join. destruct seg as [|c t]; [congruence|].
  set (seg := c :: t) in *.
  set (target := match join_slash (normalize_segments false (rev segs) [seg]) with
                 | [] => str "/"
                 | c0 :: body => 47 :: c0 :: body
                 end).
  change ((47 :: join_slash segs) ++ 47 :: seg)
    with (47 :: (join_slash segs ++ 47 :: seg)).
  rewrite <- join_slash_snoc by exact Hne.
  unfold path_normalize.
  assert (Hlast : is_slash (List.last (47 :: join_slash (segs ++ [seg])) 0) = false).
  { rewrite join_slash_snoc by exact Hne.
    rewrite app_comm_cons, (list_last_app _ (47 :: seg)) by discriminate.
    exact Hlastseg. }
  rewrite Hlast. cbn [is_slash N.eqb Pos.eqb negb].
  change (split_slash (47 :: join_slash (segs ++ [seg])))
    with ([] :: split_slash (join_slash (segs ++ [seg]))).
  rewrite split_join_slash_free.
  2:{ apply Forall_app_2; [apply plain_slash_free; exact Hplain|].
      constructor; [exact Hfree | constructor]. }
  2:{ destruct segs; discriminate. }
  cbn [normalize_segments]. change (str_eqb [] []) with true. cbn [orb].
  rewrite normalize_plain_prefix by exact Hplain. rewrite app_nil_r.
  subst target.
  destruct (join_slash (normalize_segments false (rev segs) [seg]));
    reflexivity.
Qed.

(** X20. The one path of [/getImage/:name], for every name. With the storage
    directory a path of plain segments under the root, [parent] its
    directory and [leaf] its own name: a base name [..] leads to the parent
    directory of the storage directory (the root, when the storage
    directory lies directly under it); an empty base name and [.] lead to
    the storage directory itself; every other base name leads to the child
    of the storage directory with that name. *)
Theorem getImage_path_by_name
    (dir : jsstring) (parent : list jsstring) (leaf name : jsstring) :
  STORAGE_DIR dir = 47 :: join_slash (parent ++ [leaf]) ->
  Forall plain_segment (parent ++ [leaf]) ->
  let path := path_join (STORAGE_DIR dir) (basename name) in
  (basename name = str ".." ->
     path = match parent with [] => str "/" | _ :: _ => 47 :: join_slash parent end)
  /\ (basename name = [] \/ basename name = str "." -> path = STORAGE_DIR dir)
  /\ (basename name <> [] -> basename name <> str "." -> basename name <> str ".." ->
      path = STORAGE_DIR dir ++ 47 :: basename name).
Proof.
  intros Hdir Hplain path.
  assert (Hne : parent ++ [leaf] <> []) by (destruct parent; discriminate).
  assert (Hleaf : str_eqb leaf (str "..") = false).
  { apply Forall_app in Hplain. destruct Hplain as [_ Hl].
    inversion Hl as [|? ? (_ & _ & H3 & _) _]; subst.
    unfold str_eqb. apply bool_decide_eq_false_2. exact H3. }
  assert (Hpp : Forall plain_segment parent).
  { apply Forall_app in Hplain. apply Hplain. }
  split; [|split].
  - intros Hb. unfold path. rewrite Hb, Hdir.
    rewrite path_join_segment by (auto; try discriminate; repeat constructor).
    rewrite rev_app_distr. cbn [rev app normalize_segments].
    change (str_eqb (str "..") []) with false.
    change (str_eqb (str "..") (str ".")) with false.
    change (str_eqb (str "..") (str "..")) with true.
    cbn [orb]. rewrite Hleaf. rewrite rev_involutive.
    destruct parent as [|p0 rest]; [reflexivity|].
    destruct (last_join_slash (p0 :: rest) Hpp ltac:(discriminate)) as [Hbody _].
    destruct (join_slash (p0 :: rest)); [congruence | reflexivity].
  - intros [Hb | Hb]; unfold path; rewrite Hb, Hdir.
    + unfold path_join. apply path_normalize_plain; assumption.
    + rewrite path_join_segment by (auto; try discriminate; repeat constructor).
      cbn [normalize_segments].
      change (str_eqb (str ".") []) with false.
      change (str_eqb (str ".") (str ".")) with true.
      cbn [orb]. rewrite rev_involutive.
      destruct (last_join_slash (parent ++ [leaf]) Hplain Hne) as [Hbody _].
      destruct (join_slash (parent ++ [leaf])); [congruence | reflexivity].
  - intros H1 H2 H3. unfold path.
    eapply path_join_child; eauto.
    repeat split; try assumption. apply basename_slash_free.
Qed.

Lemma getImage_path_by_name_witness :
  path_join (STORAGE_DIR (str "/srv/app")) (basename (str "a/b/.."))
  = str "/srv/app".
Proof.
  refine (proj1 (getImage_path_by_name (str "/srv/app") [str "srv"; str "app"]
                   (str "storage") (str "a/b/..") _ _) _);
    [reflexivity | | reflexivity].
  repeat constructor; try discriminate.
Defined.

(* ===================================================================== *)
(** * Properties of the listing route *)
(* ===================================================================== *)

Lemma startsWith_length (s prefix : jsstring) :
  startsWith s prefix = true -> (length prefix <= length s)%nat.
Proof.
  revert s. induction prefix as [|p prefix IH]; intros s H; cbn [length]; [lia|].
  destruct s as [|c s]; cbn in H; [discriminate|].
  apply andb_prop in H. destruct H as [_ H]. specialize (IH s H). cbn [length]. lia.
Qed.

Lemma json_name_plain (f : jsstring) :
  endsWith f (str ".json") = true ->
  Forall (fun c => is_slash c = false) f ->
  plain_segment f.
Proof.
  intros Hend Hfree. unfold endsWith in Hend.
  apply startsWith_length in Hend. rewrite !length_rev in Hend.
  change (length (str ".json")) with 5%nat in Hend.
  repeat split; try assumption; intros E; rewrite E in Hend; cbn in Hend; lia.
Qed.


Lemma readJson_inr (fs : gmap jsstring Node) (path : jsstring) (meta : JSON) :
  readJson fs path = inr meta <-> fs !! path = Some (JsonFile meta).
Proof.
  unfold readJson. destruct (fs !! path) as [[|doc|]|]; split; intros H;
    try discriminate; congruence.
Qed.

(** X21. [/list] is gated and reads only. A request that the middleware does not
    let through gets the 403 or 429 of the middleware as text and no
    listing; when [readdir] fails on the storage directory the answer is 500;
    and in every case the files are as before. *)
Theorem list_is_gated_and_reads_only
    (pw dir : jsstring)
    (readdir : gmap jsstring Node -> jsstring -> jsstring + list jsstring)
    (st : State) (req : Request) (clock : Clock) :
  let verdict := requirePasswordForRequest pw (failedAttempts st) req
                   (t_check clock) (t_lock clock) in
  let reply := get_list pw dir readdir st req clock in
  Listing.after reply = {| failedAttempts := snd verdict; files := files st |}
  /\ (forall (code : N) (text : jsstring),
        fst verdict = Sent code text ->
        Listing.status reply = code /\ Listing.content reply = Listing.Plain text
        /\ (code = 403 \/ code = 429))
  /\ (forall message : jsstring,
        fst verdict = Allowed ->
        readdir (files st) (STORAGE_DIR dir) = inl message ->
        Listing.status reply = 500
        /\ Listing.content reply = Listing.Plain (str "Server error")).
Proof.
  intros verdict reply. subst reply. unfold get_list. fold verdict.
  assert (Hcode : forall code text, fst verdict = Sent code text ->
                                      code = 403 \/ code = 429).
  { subst verdict. intros code text.
    destruct (block_active (failedAttempts st !! req_ip req) (t_check clock)) eqn:Hact.
    - rewrite guard_blocked by exact Hact. cbn. intros [= <- _]. right. reflexivity.
    - destruct (mismatch pw req) eqn:Hmis.
      + rewrite guard_mismatch by assumption. cbn. intros [= <- _]. left. reflexivity.
      + rewrite guard_match by assumption. cbn. discriminate. }
  destruct verdict as [[code text|] fa]; cbn [fst snd files] in *.
  - split; [reflexivity|]. split.
    + intros c t [= <- <-]. repeat split. exact (Hcode code text eq_refl).
    + intros message Hall. discriminate.
  - destruct (readdir (files st) (STORAGE_DIR dir)) as [m|names];
      (split; [reflexivity|]); (split; [intros c t Hsent; discriminate|]);
      intros message _ Hread; [split; reflexivity | discriminate].
Qed.

Lemma list_results_spec
    (dir : jsstring) (segs : list jsstring) (fs : gmap jsstring Node)
    (names : list jsstring) :
  STORAGE_DIR dir = 47 :: join_slash segs ->
  Forall plain_segment segs -> segs <> [] ->
  lists_directory fs (STORAGE_DIR dir) names ->
  forall e : Listing.entry,
    In e (omap (list_one dir fs)
            (List.filter (fun f => endsWith f (str ".json")) names))
    <-> exists (f : jsstring) (meta : JSON),
          endsWith f (str ".json") = true
          /\ fs !! (STORAGE_DIR dir ++ 47 :: f) = Some (JsonFile meta)
          /\ f <> [] /\ Forall (fun c => is_slash c = false) f
          /\ e = summary f meta.
Proof.
  intros Hdir Hplain Hne Hlists e.
  rewrite <- list_elem_of_In, list_elem_of_omap. split.
  - intros (f & Hf & Hone). rewrite list_elem_of_In, List.filter_In in Hf.
    destruct Hf as [Hin Hend].
    apply Hlists in Hin. destruct Hin as (Hfne & Hfree & _).
    unfold list_one in Hone.
    rewrite (path_join_child _ segs f Hdir Hplain Hne (json_name_plain f Hend Hfree))
      in Hone.
    destruct (readJson fs (STORAGE_DIR dir ++ 47 :: f)) as [m|meta] eqn:Er;
      [discriminate|].
    injection Hone as <-. apply readJson_inr in Er.
    exists f, meta. auto.
  - intros (f & meta & Hend & Hfile & Hfne & Hfree & ->).
    exists f. split.
    + rewrite list_elem_of_In, List.filter_In. split; [|exact Hend].
      apply Hlists. split; [exact Hfne|]. split; [exact Hfree | eauto].
    + unfold list_one.
      rewrite (path_join_child _ segs f Hdir Hplain Hne (json_name_plain f Hend Hfree)).
      apply readJson_inr in Hfile. rewrite Hfile. reflexivity.
Qed.




Example list_of_listed_files :
  Listing.content
    (get_list (str "pw") (str "/app") listed_readdir
       {| failedAttempts := ∅; files := listed_files |}
       (key_request (str "10.0.0.7") (Some (str "pw"))) sample_clock)
  = Listing.Entries
      [ {| Listing.filename := JStr (str "1_a.json");
           Listing.original := Some (JStr (str "a"));
           Listing.uploadedAt := Some (JStr (str "1ms"));
           Listing.width := None; Listing.height := None |} ].
Proof. vm_compute. reflexivity. Qed.

Lemma startsWith_app (p rest : jsstring) : startsWith (p ++ rest) p = true.
Proof.
  induction p as [|c p IH]; cbn; [reflexivity|].
  rewrite N.eqb_refl. exact IH.
Qed.

Lemma file_name_endsWith_json (clock : Clock) (safeName : jsstring) :
  endsWith (file_name clock safeName) (str ".json") = true.
Proof.
  unfold endsWith, file_name. rewrite !app_assoc, rev_app_distr.
  apply startsWith_app.
Qed.

Lemma file_name_truthy (clock : Clock) (safeName : jsstring) :
  truthy_str (file_name clock safeName) = true.
Proof.
  unfold file_name. destruct (num_to_str (t_name clock)); reflexivity.
Qed.

Lemma name_or_upload_truthy (name : option jsstring) :
  truthy_str (default [] (js_or name (Some (str "upload")))) = true.
Proof. unfold js_or. destruct name as [[|c s]|]; reflexivity. Qed.

(** X23. Upload, then list. After [/uploadJson] has stored a decoded image (the
    request passes the middleware, the decoder succeeds, no directory is in
    the way), a request to [/list] that passes the middleware, with
    [readdir] returning the entries of the storage directory, gets an array
    that holds the summary of the new record: its file name, the name given
    with the upload (["upload"] when none was given), the time stamp, and
    the width and height of the image, each [null] when it is zero. *)
Theorem uploaded_record_is_listed
    (pw : jsstring)
    (PNG_sync_read jpeg_decode : list byte -> jsstring + Bitmap.t)
    (from_base64 : jsstring -> list byte) (toISOString : N -> jsstring)
    (readdir : gmap jsstring Node -> jsstring -> jsstring + list jsstring)
    (dir : jsstring) (segs : list jsstring)
    (st : State) (req : Request) (clock : Clock) (image : PixelImage)
    (guard : gmap jsstring Entry) (req2 : Request) (clock2 : Clock)
    (names : list jsstring) :
  let providedName := default [] (js_or (body_name req) (Some (str "upload"))) in
  let fileName := file_name clock (sanitizeFileName providedName) in
  let stamp := toISOString (t_stamp clock) in
  let reply := post_uploadJson pw PNG_sync_read jpeg_decode from_base64
                 toISOString dir st req clock in
  let st2 := {| failedAttempts := guard; files := files (after reply) |} in
  STORAGE_DIR dir = 47 :: join_slash segs ->
  Forall plain_segment segs -> segs <> [] ->
  block_active (failedAttempts st !! req_ip req) (t_check clock) = false ->
  mismatch pw req = false ->
  truthy (js_or (body_imageBase64 req) (body_image req)) = true ->
  imageBufferToPixelJSON PNG_sync_read jpeg_decode
    (from_base64 (default [] (js_or (body_imageBase64 req) (body_image req))))
  = inr image ->
  files st !! path_join (STORAGE_DIR dir) fileName <> Some Dir ->
  block_active (guard !! req_ip req2) (t_check clock2) = false ->
  mismatch pw req2 = false ->
  readdir (files st2) (STORAGE_DIR dir) = inr names ->
  lists_directory (files st2) (STORAGE_DIR dir) names ->
  exists results : list Listing.entry,
    Listing.status (get_list pw dir readdir st2 req2 clock2) = 200
    /\ Listing.content (get_list pw dir readdir st2 req2 clock2)
       = Listing.Entries results
    /\ In {| Listing.filename := JStr fileName;
             Listing.original := Some (JStr providedName);
             Listing.uploadedAt := if truthy_str stamp then Some (JStr stamp) else None;
             Listing.width := if width image =? 0 then None
                              else Some (JNum (width image));
             Listing.height := if height image =? 0 then None
                               else Some (JNum (height image)) |}
         results.
Proof.
  intros providedName fileName stamp reply st2 Hdir Hplain Hne Hna Hok Himg Hdec
         Hnodir Hna2 Hok2 Hread Hlists.
  assert (Hpath : path_join (STORAGE_DIR dir) fileName = STORAGE_DIR dir ++ 47 :: fileName).
  { eapply path_join_child; eauto. apply file_name_plain. }
  assert (Hfiles : exists doc,
             files st2 !! (STORAGE_DIR dir ++ 47 :: fileName) = Some (JsonFile doc)
             /\ summary fileName doc
                = {| Listing.filename := JStr fileName;
                     Listing.original := Some (JStr providedName);
                     Listing.uploadedAt := if truthy_str stamp then Some (JStr stamp) else None;
                     Listing.width := if width image =? 0 then None
                                      else Some (JNum (width image));
                     Listing.height := if height image =? 0 then None
                                       else Some (JNum (height image)) |}).
  { subst st2 reply. unfold post_uploadJson.
    rewrite guarded_pass by assumption.
    rewrite (image_field_present req Himg), Hdec.
    fold providedName. fold fileName. cbn [files].
    rewrite writeJson_file by exact Hnodir.
    cbn [after files]. eexists. rewrite Hpath. split; [apply lookup_insert_eq|].
    unfold summary, field_or_null.
    change (json_get (str "filename") _) with (Some (JStr fileName)).
    change (json_get (str "original") _) with (Some (JStr providedName)).
    change (json_get (str "uploadedAt") _) with (Some (JStr stamp)).
    change (json_get (str "width") _) with (Some (JNum (width image))).
    change (json_get (str "height") _) with (Some (JNum (height image))).
    cbn [json_truthy].
    replace (truthy_str fileName) with true
      by (symmetry; apply file_name_truthy).
    replace (truthy_str providedName) with true
      by (symmetry; apply name_or_upload_truthy).
    cbn [default from_option id].
    destruct (truthy_str stamp), (width image =? 0), (height image =? 0); reflexivity. }
  destruct Hfiles as (doc & Hdoc & Hsum).
  subst st2. cbn [files failedAttempts] in *.
  unfold get_list. cbn [files failedAttempts].
  rewrite guard_match by assumption. cbn [files].
  rewrite Hread. cbn [Listing.status Listing.content].
  eexists. split; [reflexivity|]. split; [reflexivity|].
  apply (list_results_spec dir segs (files (after reply)) names Hdir Hplain Hne Hlists).
  exists fileName, doc. split; [apply file_name_endsWith_json|].
  split; [exact Hdoc|].
  destruct (file_name_plain clock providedName) as (H1 & _ & _ & H4).
  split; [exact H1|]. split; [exact H4|]. symmetry. exact Hsum.
Qed.

Lemma red_upload_lists :
  lists_directory (files (after red_upload_reply)) (STORAGE_DIR (str "/app"))
    [str "1700000000001_red.png.json"].
Proof.
  change (STORAGE_DIR (str "/app")) with (str "/app/storage").
  assert (Hfiles : exists doc,
             files (after red_upload_reply)
             = <[str "/app/storage/1700000000001_red.png.json" := JsonFile doc]>
                 sample_files).
  { eexists. vm_compute. reflexivity. }
  destruct Hfiles as [doc ->].
  intros n. split.
  - intros [<- | []]. split; [discriminate|]. split; [repeat constructor|].
    eexists. apply lookup_insert_eq.
  - intros (_ & _ & [v Hv]).
    apply lookup_insert_Some in Hv. destruct Hv as [[Hk _] | [_ Hv]];
      [vm_compute in Hk; simplify_eq; cbn; auto|].
    unfold sample_files in Hv.
    repeat (apply lookup_insert_Some in Hv;
            destruct Hv as [[Hk _] | [_ Hv]];
            [vm_compute in Hk; simplify_eq|]).
    apply lookup_singleton_Some in Hv. destruct Hv as [Hk _].
    vm_compute in Hk. simplify_eq.
Qed.

Lemma uploaded_record_is_listed_witness :
  exists results : list Listing.entry,
    Listing.status
      (get_list (str "pw") (str "/app") red_readdir
         {| failedAttempts := ∅; files := files (after red_upload_reply) |}
         (key_request (str "10.0.0.8") (Some (str "pw"))) sample_clock) = 200
    /\ Listing.content
         (get_list (str "pw") (str "/app") red_readdir
            {| failedAttempts := ∅; files := files (after red_upload_reply) |}
            (key_request (str "10.0.0.8") (Some (str "pw"))) sample_clock)
       = Listing.Entries results
    /\ In {| Listing.filename := JStr (str "1700000000001_red.png.json");
             Listing.original := Some (JStr (str "red.png"));
             Listing.uploadedAt := Some (JStr (str "1700000000002ms"));
             Listing.width := Some (JNum 2);
             Listing.height := Some (JNum 2) |}
         results.
Proof.
  refine (uploaded_record_is_listed (str "pw") sample_PNG_sync_read
            sample_jpeg_decode sample_Buffer_from_base64 sample_toISOString
            red_readdir (str "/app") [str "app"; str "storage"] sample_state
            red_upload_request sample_clock
            {| width := 2; height := 2; pixels := repeat red_pixel 4 |}
            ∅ (key_request (str "10.0.0.8") (Some (str "pw"))) sample_clock
            [str "1700000000001_red.png.json"]
            _ _ _ _ _ _ _ _ _ _ _ _);
    [ reflexivity | | discriminate | reflexivity | reflexivity | reflexivity
    | vm_compute; reflexivity | vm_compute; discriminate | reflexivity
    | reflexivity | reflexivity | exact red_upload_lists ].
  repeat constructor; try discriminate.
Defined.

(* ===================================================================== *)
(** * The decoded record, for every image *)
(* ===================================================================== *)

Lemma json_of_pixel_fields (p : Pixel) :
  json_get (str "r") (json_of_pixel p) = JNum <$> r p
  /\ json_get (str "g") (json_of_pixel p) = JNum <$> g p
  /\ json_get (str "b") (json_of_pixel p) = JNum <$> b p
  /\ json_get (str "a") (json_of_pixel p) = JNum <$> a p.
Proof.
  destruct p as [[cr|] [cg|] [cb|] [ca|]]; repeat split; reflexivity.
Qed.

(** X24. The JSON route, end to end, for every image. A request to
    [/uploadJson] that passes the middleware and whose image the decoder
    accepts, with no directory in the way of the new file, is answered
    [{ success: true, filename }]; the document stored under that name holds
    the file name, the given name, the time stamp, the width and height of
    the image and one object per pixel, in order, from which each component
    that is defined reads back as it was; and [/getImage/:name] with the
    returned name, by a request that passes the middleware, answers with
    that same document. *)
Theorem json_upload_round_trip
    (pw : jsstring)
    (PNG_sync_read jpeg_decode : list byte -> jsstring + Bitmap.t)
    (from_base64 : jsstring -> list byte) (toISOString : N -> jsstring)
    (dir : jsstring) (st : State) (req : Request) (clock : Clock)
    (image : PixelImage) :
  let providedName := default [] (js_or (body_name req) (Some (str "upload"))) in
  let fileName := file_name clock (sanitizeFileName providedName) in
  let filePath := path_join (STORAGE_DIR dir) fileName in
  let reply := post_uploadJson pw PNG_sync_read jpeg_decode from_base64
                 toISOString dir st req clock in
  block_active (failedAttempts st !! req_ip req) (t_check clock) = false ->
  mismatch pw req = false ->
  truthy (js_or (body_imageBase64 req) (body_image req)) = true ->
  imageBufferToPixelJSON PNG_sync_read jpeg_decode
    (from_base64 (default [] (js_or (body_imageBase64 req) (body_image req))))
  = inr image ->
  files st !! filePath <> Some Dir ->
  response reply
  = {| status := 200;
       body := Json (JObj [(str "success", JBool true);
                           (str "filename", JStr fileName)]) |}
  /\ failedAttempts (after reply) = delete (req_ip req) (failedAttempts st)
  /\ exists (doc : JSON) (items : list JSON),
       files (after reply) = <[filePath := JsonFile doc]> (files st)
       /\ json_get (str "filename") doc = Some (JStr fileName)
       /\ json_get (str "original") doc = Some (JStr providedName)
       /\ json_get (str "uploadedAt") doc = Some (JStr (toISOString (t_stamp clock)))
       /\ json_get (str "width") doc = Some (JNum (width image))
       /\ json_get (str "height") doc = Some (JNum (height image))
       /\ json_get (str "imageBase64") doc = None
       /\ json_get (str "pixels") doc = Some (JArr items)
       /\ length items = length (pixels image)
       /\ (forall (k : nat) (p : Pixel),
             pixels image !! k = Some p ->
             exists item : JSON,
               items !! k = Some item
               /\ json_get (str "r") item = JNum <$> r p
               /\ json_get (str "g") item = JNum <$> g p
               /\ json_get (str "b") item = JNum <$> b p
               /\ json_get (str "a") item = JNum <$> a p)
       /\ forall (guard : gmap jsstring Entry) (req2 : Request) (clock2 : Clock),
            params_name req2 = fileName ->
            block_active (guard !! req_ip req2) (t_check clock2) = false ->
            mismatch pw req2 = false ->
            response (get_getImage pw dir
                        {| failedAttempts := guard; files := files (after reply) |}
                        req2 clock2)
            = {| status := 200; body := Json doc |}.
Proof.
  intros providedName fileName filePath reply Hna Hok Himg Hdec Hnodir.
  subst reply. unfold post_uploadJson.
  rewrite guarded_pass by assumption.
  rewrite (image_field_present req Himg), Hdec.
  fold providedName. fold fileName. fold filePath. cbn [files].
  rewrite writeJson_file by exact Hnodir.
  cbn [response after calls files failedAttempts].
  split; [reflexivity|]. split; [reflexivity|].
  eexists. exists (map json_of_pixel (pixels image)).
  split; [reflexivity|].
  do 7 (split; [reflexivity|]).
  split; [apply length_map|]. split.
  - intros k p Hp. exists (json_of_pixel p). split.
    + rewrite list_lookup_fmap, Hp. reflexivity.
    + apply json_of_pixel_fields.
  - intros guard req2 clock2 Hname Hna2 Hok2.
    erewrite getImage_found; [reflexivity | exact Hna2 | exact Hok2 |].
    cbn [files]. rewrite Hname. unfold fileName at 1.
    rewrite basename_file_name. fold fileName. fold filePath.
    apply lookup_insert_eq.
Qed.

Lemma json_upload_round_trip_witness :
  response
    (post_uploadJson (str "pw") sample_PNG_sync_read grey_jpeg_decode
       sample_Buffer_from_base64 sample_toISOString (str "/app") sample_state
       (json_request (str "10.0.0.7") (str "pw")
          (Some (toString_base64 jfif_head)) None [])
       sample_clock)
  = {| status := 200;
       body := Json (JObj [(str "success", JBool true);
                           (str "filename", JStr (str "1700000000001_upload.json"))]) |}.
Proof.
  refine (proj1 (json_upload_round_trip (str "pw") sample_PNG_sync_read
                   grey_jpeg_decode sample_Buffer_from_base64 sample_toISOString
                   (str "/app") sample_state
                   (json_request (str "10.0.0.7") (str "pw")
                      (Some (toString_base64 jfif_head)) None [])
                   sample_clock
                   {| width := 1; height := 1;
                      pixels := [ {| r := Some 128; g := Some 128; b := Some 128;
                                     a := Some 255 |} ] |}
                   _ _ _ _ _));
    [ reflexivity | reflexivity | reflexivity | vm_compute; reflexivity
    | vm_compute; discriminate ].
Defined.

(* ===================================================================== *)
(** * The state of the guard across the routes *)
(* ===================================================================== *)

(** X25. The four routes share one map of failed attempts and none of them
    changes it beyond what the middleware does: whatever the request and
    the outcome of the route, the map after the request is the map that
    [requirePasswordForRequest] leaves. So failures on one route count
    towards the lock on every route, and a success on any route clears
    them. *)
Theorem routes_leave_the_guard_to_the_middleware
    (pw : jsstring)
    (PNG_sync_read jpeg_decode : list byte -> jsstring + Bitmap.t)
    (from_base64 : jsstring -> list byte) (toISOString : N -> jsstring)
    (readdir : gmap jsstring Node -> jsstring -> jsstring + list jsstring)
    (dir : jsstring) (st : State) (req : Request) (clock : Clock) :
  let verdict := requirePasswordForRequest pw (failedAttempts st) req
                   (t_check clock) (t_lock clock) in
  failedAttempts (after (post_upload pw toISOString dir st req clock)) = snd verdict
  /\ failedAttempts (after (post_uploadJson pw PNG_sync_read jpeg_decode from_base64
                              toISOString dir st req clock)) = snd verdict
  /\ failedAttempts (after (get_getImage pw dir st req clock)) = snd verdict
  /\ failedAttempts (Listing.after (get_list pw dir readdir st req clock)) = snd verdict.
Proof.
  intros verdict. unfold post_upload, post_uploadJson, get_getImage, get_list, guarded.
  fold verdict. destruct verdict as [[code text|] fa]; cbn [snd].
  - repeat split; reflexivity.
  - split; [|split; [|split]].
    + destruct (req_file req); [|reflexivity].
      destruct (writeJson _ _ _); reflexivity.
    + destruct (negb _ && negb _); [reflexivity|].
      destruct (imageBufferToPixelJSON _ _ _); [reflexivity|].
      destruct (writeJson _ _ _); reflexivity.
    + destruct (negb _); [reflexivity|]. destruct (readJson _ _); reflexivity.
    + cbn [files]. destruct (readdir _ _); reflexivity.
Qed.

(* ===================================================================== *)
(** * The two signature checks *)
(* ===================================================================== *)

(** X26. The upload route of index.js and [imageBufferToPixelJSON] agree on PNG
    and differ on JPEG: index.js takes every file that starts with [FF D8]
    for a JPEG, the decoder of the gated server wants [FF D8 FF]. Every
    buffer that the decoder recognizes is recognized by index.js, and a
    buffer that starts with [FF D8] and another third byte (or none) is
    rejected by the decoder as unsupported while index.js goes on with it,
    into its 500. *)
Theorem signature_checks_compared
    (PNG_sync_read jpeg_decode : list byte -> jsstring + Bitmap.t)
    (req : Request) (buf : list byte) (name : option jsstring) :
  req_file req = Some {| buffer := buf; originalname := name |} ->
  (Index.post_upload req = {| status := 400; body := Text (str "Unsupported file type.") |}
   <-> firstn 8 buf <> PNG_MAGIC /\ firstn 2 buf <> JPEG_MAGIC2)
  /\ (imageBufferToPixelJSON PNG_sync_read jpeg_decode buf = inl UnsupportedFormat
      <-> firstn 8 buf <> PNG_MAGIC /\ firstn 3 buf <> JPEG_MAGIC3)
  /\ (imageBufferToPixelJSON PNG_sync_read jpeg_decode buf <> inl UnsupportedFormat ->
      Index.post_upload req = {| status := 500; body := Text (str "Server error.") |})
  /\ (firstn 2 buf = JPEG_MAGIC2 -> firstn 3 buf <> JPEG_MAGIC3 ->
      imageBufferToPixelJSON PNG_sync_read jpeg_decode buf = inl UnsupportedFormat
      /\ Index.post_upload req = {| status := 500; body := Text (str "Server error.") |}).
Proof.
  intros Hfile.
  assert (Hidx : Index.post_upload req
                 = if negb (str_eqb (toString_hex buf 8) (str "89504e470d0a1a0a"))
                      && negb (str_eqb (toString_hex buf 2) (str "ffd8"))
                   then {| status := 400; body := Text (str "Unsupported file type.") |}
                   else {| status := 500; body := Text (str "Server error.") |}).
  { unfold Index.post_upload. rewrite Hfile. reflexivity. }
  assert (Hdec : imageBufferToPixelJSON PNG_sync_read jpeg_decode buf = inl UnsupportedFormat
                 <-> firstn 8 buf <> PNG_MAGIC /\ firstn 3 buf <> JPEG_MAGIC3).
  { split.
    - intros Hres. split; intros Hsig.
      + rewrite (decode_by_png _ _ _ Hsig) in Hres.
        destruct (PNG_sync_read buf); discriminate.
      + rewrite (decode_by_jpeg _ _ _ Hsig) in Hres.
        destruct (jpeg_decode buf); discriminate.
    - intros [H8 H3]. unfold imageBufferToPixelJSON.
      rewrite (not_true_is_false _ (fun E => H8 (proj1 (isPNG_iff buf) E))).
      rewrite (not_true_is_false _ (fun E => H3 (proj1 (isJPEG3_iff buf) E))).
      reflexivity. }
  assert (H32 : firstn 3 buf = JPEG_MAGIC3 -> firstn 2 buf = JPEG_MAGIC2).
  { intros H3. clear -H3. unfold JPEG_MAGIC3 in H3.
    destruct buf as [|x0 [|x1 [|x2 rest]]]; try discriminate.
    cbn [firstn] in H3. injection H3; intros; subst. reflexivity. }
  assert (Hpng := isPNG_iff buf). assert (Hj2 := isJPEG2_iff buf).
  split; [|split; [exact Hdec|split]].
  - rewrite Hidx.
    destruct (str_eqb (toString_hex buf 8) (str "89504e470d0a1a0a")) eqn:E8;
      cbn [negb andb].
    { split; [discriminate|]. intros [H8 _]. exfalso. apply H8, Hpng. reflexivity. }
    destruct (str_eqb (toString_hex buf 2) (str "ffd8")) eqn:E2; cbn [negb].
    { split; [discriminate|]. intros [_ H2]. exfalso. apply H2, Hj2. reflexivity. }
    split; [|reflexivity]. intros _. split; intros E.
    + apply Hpng in E. congruence.
    + apply Hj2 in E. congruence.
  - intros Hrec. rewrite Hidx.
    destruct (str_eqb (toString_hex buf 8) (str "89504e470d0a1a0a")) eqn:E8;
      [reflexivity|].
    destruct (str_eqb (toString_hex buf 2) (str "ffd8")) eqn:E2; [reflexivity|].
    exfalso. apply Hrec, Hdec. split.
    + intros E. apply Hpng in E. congruence.
    + intros E. apply H32, Hj2 in E. congruence.
  - intros H2 H3.
    assert (H8 : firstn 8 buf <> PNG_MAGIC).
    { intros E. clear -E H2. unfold PNG_MAGIC in E. unfold JPEG_MAGIC2 in H2.
      destruct buf as [|x0 [|x1 rest]]; try discriminate.
      cbn [firstn] in H2. injection H2; intros; subst. discriminate. }
    split; [apply Hdec; split; assumption|].
    rewrite Hidx. apply Hj2 in H2. rewrite H2.
    rewrite andb_false_r. reflexivity.
Qed.

Lemma signature_checks_compared_witness :
  let buf := [Byte.xff; Byte.xd8; Byte.x00] in
  imageBufferToPixelJSON sample_PNG_sync_read grey_jpeg_decode buf = inl UnsupportedFormat
  /\ Index.post_upload (form_request [] [] (Some {| buffer := buf; originalname := None |}))
     = {| status := 500; body := Text (str "Server error.") |}.
Proof.
  intros buf.
  refine (proj2 (proj2 (proj2 (signature_checks_compared sample_PNG_sync_read
                                 grey_jpeg_decode
                                 (form_request [] [] (Some {| buffer := buf; originalname := None |}))
                                 buf None eq_refl))) eq_refl _).
  discriminate.
Defined.
